(** * Interruption-swap-recall episode generator

    A shallow embedding of [problems/interruption_swap_recall.py]: the
    rotation helper [rotate], the constructor of [InterruptionSwapRecall]
    and [generate_batch], together with the few numpy / torch operations
    they are built from.

    Conventions of the embedding.
    - A 3-axis array (numpy ndarray or torch tensor) of shape
      [batch, time, bits] is a record of its three dimensions and of its
      item function; two arrays are compared with [same_array], item by
      item inside the shape.
    - Python exceptions are values of [exn]; code that may raise returns a
      [result].
    - The process-wide numpy random source is an explicit tape of naturals
      threaded through the sampling code (type [M]).
    - A Python number is an [int] or a [float]; floats are rationals and
      the product [rotation * seq_length] is taken exact.
    - [utils.add_ctrl] and [utils.augment], imported by the module, are
      not among the sources; module [Utils] models them from the
      specification of the channel encoder, and [generate_batch_with]
      takes them as a parameter, an [encoder]. *)

From Stdlib Require Import ZArith QArith Qround List Bool Lia String PeanoNat.
From Stdlib Require Import Lqa.
Import ListNotations.

Close Scope Q_scope.

(* ================================================================== *)
(** * Python values, exceptions *)
(* ================================================================== *)

Module Py.

Inductive exn : Type :=
| AssertionError (msg : string) (arg : Z)
| ValueError (msg : string)
| IndexError (msg : string)
| RuntimeError (msg : string).

Inductive result (A : Type) : Type :=
| Ok (a : A)
| Raise (e : exn).

Arguments Ok {A} a.
Arguments Raise {A} e.

Definition bind {A B : Type} (r : result A) (k : A -> result B) : result B :=
  match r with
  | Ok a => k a
  | Raise e => Raise e
  end.

(** [returns r P]: the call returns normally and its value satisfies [P]. *)
Definition returns {A : Type} (r : result A) (P : A -> Prop) : Prop :=
  match r with
  | Ok a => P a
  | Raise _ => False
  end.

Definition raises {A : Type} (r : result A) : Prop :=
  match r with
  | Ok _ => False
  | Raise _ => True
  end.

(** A Python number as the configuration dictionary can hold it. *)
Inductive number : Type :=
| PyInt (z : Z)
| PyFloat (q : Q).

(** [-1 <= x <= 1] *)
Definition in_unit_range (x : number) : bool :=
  match x with
  | PyInt z => ((-1 <=? z) && (z <=? 1))%Z
  | PyFloat q => Qle_bool (-1 # 1)%Q q && Qle_bool q (1 # 1)%Q
  end.

(** [x * n] for a Python int [n]: an int times an int is an int, a
    float times an int is a float. *)
Definition mul_int (x : number) (n : Z) : number :=
  match x with
  | PyInt z => PyInt (z * n)
  | PyFloat q => PyFloat (q * inject_Z n)%Q
  end.

(** [seq[i]] on a Python list. *)
Definition getitem {A : Type} (l : list A) (i : nat) : result A :=
  match nth_error l i with
  | Some a => Ok a
  | None => Raise (IndexError "list index out of range")
  end.

(** [seq[-1]] on a Python list. *)
Definition getlast {A : Type} (l : list A) : result A :=
  match rev l with
  | a :: _ => Ok a
  | [] => Raise (IndexError "list index out of range")
  end.

(** Bound of a slice [a:b] over a sequence of length [n]: negative
    bounds count from the end, all bounds are clamped. *)
Definition slice_bound (k : Z) (n : nat) : nat :=
  if (k <? 0)%Z then Z.to_nat (Z.max 0 (Z.of_nat n + k))
  else Nat.min (Z.to_nat k) n.

End Py.
Export Py.

Notation "x <- c ;; k" := (bind c (fun x => k))
  (at level 61, c at next level, right associativity).
Notation "' pat <- c ;; k" := (bind c (fun x => match x with pat => k end))
  (at level 61, pat pattern, c at next level, right associativity).

(* ================================================================== *)
(** * Arrays *)
(* ================================================================== *)

Module Np.

Record ndarray : Type := NDArray {
  dim0 : nat;                       (* batch *)
  dim1 : nat;                       (* time *)
  dim2 : nat;                       (* bits *)
  item : nat -> nat -> nat -> Z
}.

Definition same_array (a b : ndarray) : Prop :=
  dim0 a = dim0 b /\ dim1 a = dim1 b /\ dim2 a = dim2 b /\
  forall i t c, i < dim0 a -> t < dim1 a -> c < dim2 a ->
                item a i t c = item b i t c.

(** Conversions with nested lists, for concrete arrays. *)
Definition of_rows (n0 n1 n2 : nat) (l : list (list (list Z))) : ndarray :=
  NDArray n0 n1 n2 (fun i t c => nth c (nth t (nth i l []) []) 0%Z).

Definition to_rows (a : ndarray) : list (list (list Z)) :=
  map (fun i => map (fun t => map (fun c => item a i t c) (seq 0 (dim2 a)))
                    (seq 0 (dim1 a)))
      (seq 0 (dim0 a)).

(** [np.zeros((n0, n1, n2))] *)
Definition zeros (n0 n1 n2 : nat) : ndarray :=
  NDArray n0 n1 n2 (fun _ _ _ => 0%Z).

(** [np.zeros_like(a)] *)
Definition zeros_like (a : ndarray) : ndarray :=
  zeros (dim0 a) (dim1 a) (dim2 a).

(** [a[:, k:, :]] *)
Definition time_from (k : Z) (a : ndarray) : ndarray :=
  let s := slice_bound k (dim1 a) in
  NDArray (dim0 a) (dim1 a - s) (dim2 a) (fun i t c => item a i (s + t) c).

(** [a[:, :k, :]] *)
Definition time_upto (k : Z) (a : ndarray) : ndarray :=
  NDArray (dim0 a) (slice_bound k (dim1 a)) (dim2 a) (item a).

(** [a[:, :, k:]] *)
Definition bits_from (k : Z) (a : ndarray) : ndarray :=
  let s := slice_bound k (dim2 a) in
  NDArray (dim0 a) (dim1 a) (dim2 a - s) (fun i t c => item a i t (s + c)).

(** [a[:, :, 0:k]] *)
Definition bits_upto (k : Z) (a : ndarray) : ndarray :=
  NDArray (dim0 a) (dim1 a) (slice_bound k (dim2 a)) (item a).

Fixpoint concat_item (l : list ndarray) (i t c : nat) : Z :=
  match l with
  | [] => 0%Z
  | a :: r => if t <? dim1 a then item a i t c
              else concat_item r i (t - dim1 a) c
  end.

(** [np.concatenate(l, axis=1)] *)
Definition concatenate (l : list ndarray) : result ndarray :=
  match l with
  | [] => Raise (ValueError "need at least one array to concatenate")
  | a :: r =>
      if forallb (fun b => (dim0 b =? dim0 a) && (dim2 b =? dim2 a)) r
      then Ok (NDArray (dim0 a) (list_sum (map dim1 l)) (dim2 a)
                       (concat_item l))
      else Raise (ValueError "all the input array dimensions except for the concatenation axis must match exactly")
  end.

(** [np.round] on a float: to the nearest integer, halves to the even
    neighbour. *)
Definition round_half_even (q : Q) : Z :=
  let f := Qfloor q in
  match Qcompare (q - inject_Z f)%Q (1 # 2)%Q with
  | Lt => f
  | Gt => (f + 1)%Z
  | Eq => if Z.even f then f else (f + 1)%Z
  end.

(** [np.round(x)]: an int comes back as an integer scalar, a float as a
    float scalar. *)
Definition round (x : number) : number :=
  match x with
  | PyInt z => PyInt z
  | PyFloat q => PyFloat (inject_Z (round_half_even q))
  end.

(** [x % n] on a numpy scalar [x] and a Python int [n].  The remainder
    has the sign of [n].  Division by zero does not raise on numpy
    scalars: it warns, and yields 0 on integers and NaN ([None]) on
    floats. *)
Definition remainder (x : number) (n : Z) : option number :=
  match x with
  | PyInt z => Some (PyInt (if (n =? 0)%Z then 0 else z mod n))
  | PyFloat q =>
      if (n =? 0)%Z then None
      else Some (PyFloat (q - inject_Z n * inject_Z (Qfloor (q / inject_Z n)))%Q)
  end.

(** [int(x)] on the scalar [x]: truncation, [ValueError] on NaN. *)
Definition to_int (x : option number) : result Z :=
  match x with
  | None => Raise (ValueError "cannot convert float NaN to integer")
  | Some (PyInt z) => Ok z
  | Some (PyFloat q) => Ok (if Qle_bool 0%Q q then Qfloor q else Qceiling q)
  end.

End Np.
Export Np.

(* ================================================================== *)
(** * [rotate] *)
(* ================================================================== *)

Definition rotate (seq : ndarray) (rotation : number) (seq_length : Z)
  : result ndarray :=
  (* Check if we are using relative or absolute rotation. *)
  let rotation := if in_unit_range rotation
                  then mul_int rotation seq_length
                  else rotation in
  (* Round bitshift to int. *)
  let rotation := Np.round rotation in
  (* Modulo items shift with length of the sequence. *)
  rotation <- to_int (remainder rotation seq_length) ;;
  (* apply the shift *)
  concatenate [time_from rotation seq; time_upto rotation seq].

(* ================================================================== *)
(** * The random source *)
(* ================================================================== *)

Module Rng.

(** The state of [np.random]: the values still to be drawn. *)
Definition tape : Type := nat -> nat.

Definition M (A : Type) : Type := tape -> result (A * tape).

Definition ret {A : Type} (a : A) : M A := fun s => Ok (a, s).

Definition bindM {A B : Type} (m : M A) (k : A -> M B) : M B :=
  fun s => match m s with
           | Ok (a, s') => k a s'
           | Raise e => Raise e
           end.

Definition lift {A : Type} (r : result A) : M A :=
  fun s => match r with
           | Ok a => Ok (a, s)
           | Raise e => Raise e
           end.

Definition advance (k : nat) (s : tape) : tape := fun i => s (k + i).

Fixpoint mapM {A B : Type} (f : A -> M B) (l : list A) : M (list B) :=
  match l with
  | [] => ret []
  | a :: r => bindM (f a) (fun b => bindM (mapM f r) (fun bs => ret (b :: bs)))
  end.

(** A value of the half-open range [low, high) picked by the draw [r]. *)
Definition in_range (low high : Z) (r : nat) : Z :=
  (low + Z.of_nat r mod (high - low))%Z.

(** [np.random.randint(low, high)] *)
Definition randint (low high : Z) : M Z :=
  fun s => if (low <? high)%Z
           then Ok (in_range low high (s 0), advance 1 s)
           else Raise (ValueError "low >= high").

(** [np.random.randint(low=low, high=high, size=size)] *)
Definition randint_size (low high size : Z) : M (list Z) :=
  fun s => if (low <? high)%Z
           then if (size <? 0)%Z
                then Raise (ValueError "negative dimensions are not allowed")
                else let n := Z.to_nat size in
                     Ok (map (fun i => in_range low high (s i)) (seq 0 n),
                         advance n s)
           else Raise (ValueError "low >= high").

(** One Bernoulli draw of success probability [p]: certain when [p] is
    0 or 1, otherwise either outcome. *)
Definition bernoulli (p : Q) (r : nat) : Z :=
  if Qeq_bool p 0 then 0%Z
  else if Qeq_bool p 1 then 1%Z
  else Z.of_nat (r mod 2).

(** [np.random.binomial(1, p, (n0, n1, n2))] *)
Definition binomial1 (p : Q) (n0 n1 n2 : Z) : M ndarray :=
  fun s => if Qle_bool 0 p && Qle_bool p 1
           then if ((n0 <? 0) || (n1 <? 0) || (n2 <? 0))%Z
                then Raise (ValueError "negative dimensions are not allowed")
                else let '(d0, d1, d2) := (Z.to_nat n0, Z.to_nat n1, Z.to_nat n2) in
                     Ok (NDArray d0 d1 d2
                           (fun i t c => bernoulli p (s ((i * d1 + t) * d2 + c))),
                         advance (d0 * d1 * d2) s)
           else Raise (ValueError "p < 0, p > 1 or p is NaN").

End Rng.
Export Rng.

Notation "x <~ c ;; k" := (bindM c (fun x => k))
  (at level 61, c at next level, right associativity).

(** [np.zeros((n0, n1, n2))] on Python ints. *)
Definition np_zeros (n0 n1 n2 : Z) : result ndarray :=
  if ((n0 <? 0) || (n1 <? 0) || (n2 <? 0))%Z
  then Raise (ValueError "negative dimensions are not allowed")
  else Ok (zeros (Z.to_nat n0) (Z.to_nat n1) (Z.to_nat n2)).

(* ================================================================== *)
(** * Boolean arrays, mask indexing *)
(* ================================================================== *)

Module Torch.

(** Result of an element-wise comparison on a 3-axis tensor. *)
Record bool3 : Type := Bool3 {
  bdim0 : nat; bdim1 : nat; bdim2 : nat;
  bitem : nat -> nat -> nat -> bool
}.

(** A 2-axis boolean tensor [batch, time]. *)
Record bool2 : Type := Bool2 {
  rows : nat; cols : nat;
  entry : nat -> nat -> bool
}.

(** [a == v] *)
Definition eq_scalar (a : ndarray) (v : Z) : bool3 :=
  Bool3 (dim0 a) (dim1 a) (dim2 a) (fun i t c => (item a i t c =? v)%Z).

(** [m[..., i]] *)
Definition last_axis (m : bool3) (i : nat) : result bool2 :=
  if i <? bdim2 m
  then Ok (Bool2 (bdim0 m) (bdim1 m) (fun b t => bitem m b t i))
  else Raise (IndexError "index out of range for the last dimension").

(** [a * b] on truth values of equal shape. *)
Definition mul (a b : bool2) : bool2 :=
  Bool2 (rows a) (cols a) (fun i t => entry a i t && entry b i t).

(** [m[0]] *)
Definition row0 (m : bool2) : result (nat -> bool) :=
  if 0 <? rows m then Ok (entry m 0)
  else Raise (IndexError "index 0 is out of bounds for dimension 0 with size 0").

(** The time-steps a boolean index selects, in increasing order. *)
Definition positions (sel : nat -> bool) (n : nat) : list nat :=
  filter sel (seq 0 n).

(** Number of selected time-steps before [t]. *)
Definition rank (sel : nat -> bool) (t : nat) : nat :=
  List.length (positions sel t).

Definition count_true (sel : nat -> bool) (n : nat) : nat :=
  List.length (positions sel n).

(** [a[:, sel, :]] read. *)
Definition getitem_time (a : ndarray) (sel : nat -> bool) : ndarray :=
  NDArray (dim0 a) (count_true sel (dim1 a)) (dim2 a)
          (fun i j c => item a i (nth j (positions sel (dim1 a)) 0) c).

(** [a[:, sel, 0:k] = v] *)
Definition setitem_time_bits (a : ndarray) (sel : nat -> bool) (k : Z) (v : Z)
  : ndarray :=
  NDArray (dim0 a) (dim1 a) (dim2 a)
          (fun i t c => if sel t && (c <? slice_bound k (dim2 a))
                        then v else item a i t c).

(** An axis of length [v] broadcasts to length [n]. *)
Definition broadcasts (v n : nat) : bool := (v =? n) || (v =? 1).

Definition bidx (v i : nat) : nat := if v =? 1 then 0 else i.

(** [a[:, sel, :] = value]: the value is broadcast to the shape of the
    selection, item [j] of its time axis goes to the [j]-th selected
    time-step. *)
Definition setitem_time (a : ndarray) (sel : nat -> bool) (value : ndarray)
  : result ndarray :=
  if broadcasts (dim0 value) (dim0 a)
     && broadcasts (dim1 value) (count_true sel (dim1 a))
     && broadcasts (dim2 value) (dim2 a)
  then Ok (NDArray (dim0 a) (dim1 a) (dim2 a)
             (fun i t c => if sel t
                           then item value (bidx (dim0 value) i)
                                           (bidx (dim1 value) (rank sel t))
                                           (bidx (dim2 value) c)
                           else item a i t c))
  else Raise (RuntimeError "shape mismatch: value tensor cannot be broadcast to indexing result").

End Torch.
Export Torch.

(* ================================================================== *)
(** * [utils]: the channel encoder *)
(* ================================================================== *)

Module Utils.

(** Modelled from the spec: [add_ctrl] of [utils.py], which is not among
    the sources.  It concatenates the control pattern, broadcast over
    batch and time, onto the block along the bit axis at the insertion
    point, giving a block of width [len(ctrl) + data_bits].  The caller
    passes one insertion index per control value, all equal; the pattern
    is spliced, in order, at the first of them. *)
Definition add_ctrl (seq : ndarray) (ctrl : list Z) (pos : list nat) : ndarray :=
  let p := Nat.min (hd 0 pos) (dim2 seq) in
  let w := List.length ctrl in
  NDArray (dim0 seq) (dim1 seq) (w + dim2 seq)
          (fun i t c => if c <? p then item seq i t c
                        else if c <? p + w then nth (c - p) ctrl 0%Z
                        else item seq i t (c - w)).

(** Modelled from the spec: [augment] of [utils.py], which is not among
    the sources.  It returns the ordered parts of the augmented block:
    a leading marker row tagged with [ctrl_start] (only if
    [add_marker_data]), the data block tagged with the DATA marker, and
    a trailing dummy block of the same shape, zero in the data bits and
    tagged with the DUMMY marker. *)
Definition augment (seq : ndarray) (markers : list Z * list Z * list nat)
           (ctrl_start : list Z) (add_marker_data : bool) : list ndarray :=
  let '(ctrl_data, ctrl_dummy, pos) := markers in
  let start := add_ctrl (zeros (dim0 seq) 1 (dim2 seq)) ctrl_start pos in
  let data := add_ctrl seq ctrl_data pos in
  let dummy := add_ctrl (zeros_like seq) ctrl_dummy pos in
  (if add_marker_data then [start] else []) ++ [data; dummy].

End Utils.
Export Utils.

(* ================================================================== *)
(** * [InterruptionSwapRecall] *)
(* ================================================================== *)

(** The parameter dictionary. *)
Record params : Type := Params {
  p_batch_size : Z;
  p_control_bits : Z;
  p_data_bits : Z;
  p_min_sequence_length : Z;
  p_max_sequence_length : Z;
  p_num_subseq_min : Z;
  p_num_subseq_max : Z;
  p_bias : Q;
  p_num_rotation : number
}.

Record InterruptionSwapRecall : Type := Problem {
  batch_size : Z;
  control_bits : Z;
  data_bits : Z;
  min_sequence_length : Z;
  max_sequence_length : Z;
  num_subseq_min : Z;
  num_subseq_max : Z;
  bias : Q;
  rotation : number
}.

(** [InterruptionSwapRecall.__init__] *)
Definition init (p : params) : result InterruptionSwapRecall :=
  if (3 <=? p_control_bits p)%Z then
    if (1 <=? p_data_bits p)%Z then
      Ok (Problem (p_batch_size p) (p_control_bits p) (p_data_bits p)
                  (p_min_sequence_length p) (p_max_sequence_length p)
                  (p_num_subseq_min p) (p_num_subseq_max p)
                  (p_bias p) (p_num_rotation p))
    else Raise (AssertionError "Problem requires at least 1 data bit (currently %r)"
                               (p_data_bits p))
  else Raise (AssertionError "Problem requires at least 3 control bits (currently %r)"
                             (p_control_bits p)).

(** An episode: inputs, targets, mask. *)
Definition episode : Type := (ndarray * ndarray * bool2)%type.

Section GenerateBatch.

Variable self : InterruptionSwapRecall.

(* define control channel markers *)
Definition pos : list nat := [0; 0; 0].
Definition ctrl_data : list Z := [0; 0; 0]%Z.
Definition ctrl_dummy : list Z := [0; 0; 1]%Z.
Definition ctrl_inter : list Z := [1; 1; 0]%Z.

(* assign markers *)
Definition markers : list Z * list Z * list nat := (ctrl_data, ctrl_dummy, pos).

(** [ctrl_xy = np.zeros_like(ctrl_data); ctrl_xy[1] = 1] *)
Definition ctrl_xy : list Z :=
  match map (fun _ => 0%Z) ctrl_data with
  | c0 :: _ :: r => c0 :: 1%Z :: r
  | l => l
  end.

(** Lines 79-88: the random draws, the sub-sequences [x] and [y]. *)
Definition sample : M (list ndarray * list ndarray) :=
  (* number of sub_sequences *)
  nb_sub_seq_a <~ randint (num_subseq_min self) (num_subseq_max self + 1) ;;
  let nb_sub_seq_b := nb_sub_seq_a in
  (* set the sequence length of each marker *)
  seq_lengths_a <~ randint_size (min_sequence_length self)
                                (max_sequence_length self + 1) nb_sub_seq_a ;;
  seq_lengths_b <~ randint_size (min_sequence_length self)
                                (max_sequence_length self + 1) nb_sub_seq_b ;;
  (* generate subsequences for x and y *)
  x <~ mapM (fun n => binomial1 (bias self) (batch_size self) n (data_bits self))
            seq_lengths_a ;;
  y <~ mapM (fun n => binomial1 (bias self) (batch_size self) n (data_bits self))
            seq_lengths_b ;;
  ret (x, y).

(** One round of the comprehension building [data_1]:
    [a[:-1] + [inter_xy] + [rotate(b[0], self.rotation, b[0].shape[1])] + [b[1]]] *)
Definition interleave (inter_xy : ndarray) (ab : list ndarray * list ndarray)
  : result (list ndarray) :=
  let '(a, b) := ab in
  b0 <- getitem b 0 ;;
  r <- rotate b0 (rotation self) (Z.of_nat (dim1 b0)) ;;
  b1 <- getitem b 1 ;;
  Ok (removelast a ++ [inter_xy] ++ [r] ++ [b1]).

Fixpoint collect {A B : Type} (f : A -> result (list B)) (l : list A)
  : result (list B) :=
  match l with
  | [] => Ok []
  | a :: r => bs <- f a ;; rest <- collect f r ;; Ok (bs ++ rest)
  end.

(** Lines 91-117: target and raw inputs from the drawn sub-sequences. *)
Definition assemble (x y : list ndarray) : result (ndarray * ndarray) :=
  (* create the target *)
  target <- concatenate (y ++ x) ;;
  (* add marker at the beginning of x and dummies of same length *)
  let xx := map (fun seq => augment seq markers [1; 0; 0]%Z true) x in
  (* add dummies to y of same length *)
  let yy := map (fun seq => augment seq markers [0; 1; 0]%Z false) y in
  (* this is a marker to separate dummies of x and y at the end of the sequence *)
  z1 <- np_zeros (batch_size self) 1 (data_bits self) ;;
  let inter_seq := add_ctrl z1 ctrl_inter pos in
  (* this is a marker between sub sequence x and y *)
  z2 <- np_zeros (batch_size self) 1 (data_bits self) ;;
  let inter_xy := add_ctrl z2 ctrl_xy pos in
  (* data which contains all xs and all rotated ys plus dummies of ys *)
  data_1 <- collect (interleave inter_xy) (combine xx yy) ;;
  (* dummies of xs *)
  data_2 <- collect (fun a => d <- getlast a ;; Ok [time_from 1 d]) xx ;;
  (* concatenate all parts of the inputs *)
  inputs <- concatenate (data_1 ++ [inter_seq] ++ data_2) ;;
  Ok (inputs, target).

(** The loop [for i in range(self.control_bits): mask = mask_all[..., i] * mask] *)
Fixpoint mask_loop (mask_all : bool3) (range : list nat) (mask : bool2)
  : result bool2 :=
  match range with
  | [] => Ok mask
  | i :: r => m <- last_axis mask_all i ;; mask_loop mask_all r (mul m mask)
  end.

(** Lines 120-123: create the mask. *)
Definition create_mask (inputs : ndarray) : result bool2 :=
  let mask_all := eq_scalar (bits_upto (control_bits self) inputs) 1 in
  mask <- last_axis mask_all 0 ;;
  mask_loop mask_all (seq 0 (Z.to_nat (control_bits self))) mask.

(** Lines 120-132: mask, reset of the control channel, targets. *)
Definition reconcile (inputs target : ndarray) : result episode :=
  (* create the mask *)
  mask <- create_mask inputs ;;
  (* rest ctrl channel of dummies *)
  mask0 <- row0 mask ;;
  let inputs' := setitem_time_bits inputs mask0 (control_bits self) 0 in
  (* Create the target with the dummies *)
  let target_with_dummies := zeros_like (bits_from (control_bits self) inputs') in
  mask0 <- row0 mask ;;
  target_with_dummies <- setitem_time target_with_dummies mask0 target ;;
  Ok (inputs', target_with_dummies, mask).

Definition generate_batch : M episode :=
  xy <~ sample ;;
  lift (it <- assemble (fst xy) (snd xy) ;; reconcile (fst it) (snd it)).

End GenerateBatch.

(* ================================================================== *)
(** * Vocabulary of the properties *)
(* ================================================================== *)

(** The integer a rounded scalar stands for. *)
Definition int_value (x : number) : Z :=
  match x with
  | PyInt z => z
  | PyFloat q => Qfloor q
  end.

(** The rounded rotation amount, before the reduction modulo the length. *)
Definition rounded_shift (rotation : number) (seq_length : Z) : Z :=
  int_value (Np.round (if in_unit_range rotation
                       then mul_int rotation seq_length
                       else rotation)).

(** The offset: the rounded amount reduced into [0, L). *)
Definition offset (rotation : number) (seq_length : Z) : Z :=
  (rounded_shift rotation seq_length mod seq_length)%Z.

(** Equality of the values of two Python numbers ([==]). *)
Definition num_eq (x y : number) : Prop :=
  match x, y with
  | PyInt a, PyInt b => a = b
  | PyInt a, PyFloat q => Qeq (inject_Z a) q
  | PyFloat q, PyInt b => Qeq q (inject_Z b)
  | PyFloat p, PyFloat q => Qeq p q
  end.

(** Both calls return, with the same array. *)
Definition same_result (r1 r2 : result ndarray) : Prop :=
  match r1, r2 with
  | Ok a, Ok b => same_array a b
  | _, _ => False
  end.

(** The circular shift to the right the documentation of [rotate] speaks
    of: item [t] of the result is item [(t - k) mod L] of the block. *)
Definition right_shift (seq : ndarray) (k : Z) : ndarray :=
  NDArray (dim0 seq) (dim1 seq) (dim2 seq)
          (fun i t c =>
             item seq i (Z.to_nat ((Z.of_nat t - k) mod Z.of_nat (dim1 seq))) c).


(** One batch element, three time-steps, one bit per step. *)
Definition abc : ndarray := of_rows 1 3 1 [[[10]; [20]; [30]]]%Z.

(** One batch element, five time-steps, one bit per step. *)
Definition five_steps : ndarray :=
  of_rows 1 5 1 [[[1]; [2]; [3]; [4]; [5]]]%Z.

(** One batch element, no time-step. *)
Definition no_step : ndarray := zeros 1 0 1.

(** A raw input of one time-step whose control channel is the DUMMY
    marker of [generate_batch], followed by one data bit. *)
Definition dummy_step : ndarray := of_rows 1 1 4 [[[0; 0; 1; 0]]]%Z.

(** A problem with three control bits and one data bit. *)
Definition small_problem : InterruptionSwapRecall :=
  Problem 1 3 1 1 1 1 1 (1 # 2) (PyFloat (1 # 2)).

(** A raw input of three time-steps whose first and last control channels
    are all ones. *)
Definition marked_input : ndarray :=
  of_rows 1 3 4 [[[1; 1; 1; 5]; [0; 0; 1; 6]; [1; 1; 1; 7]]]%Z.

(** The value a call returned, or a default. *)
Definition value_or {A : Type} (d : A) (r : result A) : A :=
  match r with
  | Ok a => a
  | Raise _ => d
  end.

(** One sub-sequence [y] and one sub-sequence [x] of one time-step each,
    and their target [concat(y + x)]: the rows [8] and [9]. *)
Definition one_y : ndarray := of_rows 1 1 1 [[[8]]]%Z.
Definition one_x : ndarray := of_rows 1 1 1 [[[9]]]%Z.

Definition two_rows : ndarray :=
  value_or (zeros 0 0 0) (concatenate ([one_y] ++ [one_x])).

(** The episode the reconciler returns on [marked_input] and [two_rows]. *)
Definition marked_episode : episode :=
  value_or (marked_input, two_rows, Bool2 0 0 (fun _ _ => false))
           (reconcile small_problem marked_input two_rows).

(** Construct the problem from its parameters, then generate one batch. *)
Definition run (p : params) : M episode :=
  fun s => match init p with
           | Ok self => generate_batch self s
           | Raise e => Raise e
           end.





Definition counting_tape : tape := fun i => i.

(** A valid configuration: at least three control bits and one data bit,
    non-empty ranges of lengths and of counts starting at 1, a bias in
    [0, 1], and at least one batch element ([mask[0]] is read). *)
Definition valid (p : params) : Prop :=
  (1 <= p_batch_size p)%Z /\
  (3 <= p_control_bits p)%Z /\
  (1 <= p_data_bits p)%Z /\
  (1 <= p_min_sequence_length p <= p_max_sequence_length p)%Z /\
  (1 <= p_num_subseq_min p <= p_num_subseq_max p)%Z /\
  (Qle 0 (p_bias p) /\ Qle (p_bias p) 1).

(** Sum of the time lengths of a list of blocks. *)
Definition total_time (l : list ndarray) : nat := list_sum (map dim1 l).

(** A drawn sub-sequence of the problem: [batch_size] rows of
    [data_bits] bits, over a number of time-steps within the configured
    range. *)
Definition drawn (self : InterruptionSwapRecall) (a : ndarray) : Prop :=
  dim0 a = Z.to_nat (batch_size self) /\
  dim2 a = Z.to_nat (data_bits self) /\
  (min_sequence_length self <= Z.of_nat (dim1 a) <= max_sequence_length self)%Z.

(** The marker layout of a block: no time-step carries a control channel
    of three ones, and the three control bits of a time-step are the
    same for every batch index. *)
Definition marker_layout (a : ndarray) : Prop :=
  forall b t, t < dim1 a ->
              ~ (item a b t 0 = 1%Z /\ item a b t 1 = 1%Z /\ item a b t 2 = 1%Z) /\
              forall c, c < 3 -> item a b t c = item a 0 t c.

(** An encoded block of the problem: [batch_size] rows of three control
    bits followed by [data_bits] data bits, with the marker layout. *)
Definition encoded (self : InterruptionSwapRecall) (a : ndarray) : Prop :=
  dim0 a = Z.to_nat (batch_size self) /\
  dim2 a = 3 + Z.to_nat (data_bits self) /\
  marker_layout a.

(** Shape of a drawn block, with at least one time-step. *)
Definition nonempty_block (self : InterruptionSwapRecall) (a : ndarray) : Prop :=
  dim0 a = Z.to_nat (batch_size self) /\
  dim2 a = Z.to_nat (data_bits self) /\
  1 <= dim1 a.

Definition aug_x (seq : ndarray) : list ndarray :=
  augment seq markers [1; 0; 0]%Z true.

Definition aug_y (seq : ndarray) : list ndarray :=
  augment seq markers [0; 1; 0]%Z false.

(** The problem the constructor builds from valid parameters. *)
Definition problem_of (p : params) : InterruptionSwapRecall :=
  Problem (p_batch_size p) (p_control_bits p) (p_data_bits p)
          (p_min_sequence_length p) (p_max_sequence_length p)
          (p_num_subseq_min p) (p_num_subseq_max p)
          (p_bias p) (p_num_rotation p).

(** The configuration of the example of the module, with two rows per
    batch. *)
Definition example_params : params :=
  Params 2 3 8 1 10 1 4 (1 # 2) (PyFloat (1 # 2)).

(* ================================================================== *)
(** * Further vocabulary: rotations, draws, the reconciler *)
(* ================================================================== *)

(** [-x] on a Python number. *)
Definition neg (x : number) : number :=
  match x with
  | PyInt z => PyInt (- z)
  | PyFloat q => PyFloat (- q)
  end.

(** The circular shift to the left by [s] time-steps: item [t] of the
    result is item [(t + s) mod T] of the block, [T] its time length. *)
Definition left_shift (seq : ndarray) (s : nat) : ndarray :=
  NDArray (dim0 seq) (dim1 seq) (dim2 seq)
          (fun i t c => item seq i ((t + s) mod dim1 seq) c).

(** Every item of the array is a bit. *)
Definition binary (a : ndarray) : Prop :=
  forall i t c, item a i t c = 0%Z \/ item a i t c = 1%Z.

(** The shape of an array. *)
Definition shape (a : ndarray) : nat * nat * nat := (dim0 a, dim1 a, dim2 a).

(** The draws of the example configuration on the counting tape. *)
Definition example_draw : list ndarray * list ndarray * tape :=
  value_or ([], [], counting_tape)
           (sample (problem_of example_params) counting_tape).

(** A raw input without batch element. *)
Definition no_batch : ndarray := zeros 0 3 4.

(** A raw input of one time-step and two channels only. *)
Definition narrow_input : ndarray := of_rows 1 1 2 [[[1; 1]]]%Z.

(** [marked_input] with other data bits. *)
Definition marked_input' : ndarray :=
  of_rows 1 3 4 [[[1; 1; 1; 0]; [0; 0; 1; 1]; [1; 1; 1; 1]]]%Z.

(** One batch element, four time-steps, one bit per step. *)
Definition four_steps : ndarray := of_rows 1 4 1 [[[1]; [2]; [3]; [4]]]%Z.

(** A target of three rows. *)
Definition three_rows : ndarray := of_rows 1 3 1 [[[7]; [8]; [9]]]%Z.

(* ================================================================== *)
(** * [generate_batch] over a channel encoder *)
(* ================================================================== *)

(** The two functions [generate_batch] imports from [utils], which is not
    among the sources, as it calls them: [add_ctrl(seq, ctrl, pos)] and
    [augment(seq, markers, ctrl_start, add_marker_data)].  Either may
    raise. *)
Record encoder : Type := Encoder {
  add_ctrl_of : ndarray -> list Z -> list nat -> result ndarray;
  augment_of : ndarray -> list Z * list Z * list nat -> list Z -> bool
               -> result (list ndarray)
}.

(** A list comprehension [[f(a) for a in l]] whose body may raise. *)
Fixpoint comprehension {A B : Type} (f : A -> result B) (l : list A)
  : result (list B) :=
  match l with
  | [] => Ok []
  | a :: r => b <- f a ;; rest <- comprehension f r ;; Ok (b :: rest)
  end.

Section OverEncoder.

Variable utils : encoder.
Variable self : InterruptionSwapRecall.

(** Lines 91-117 over the encoder [utils]: target and raw inputs from the
    drawn sub-sequences. *)
Definition assemble_with (x y : list ndarray) : result (ndarray * ndarray) :=
  (* create the target *)
  target <- concatenate (y ++ x) ;;
  (* add marker at the beginning of x and dummies of same length *)
  xx <- comprehension (fun seq => augment_of utils seq markers [1; 0; 0]%Z true) x ;;
  (* add dummies to y of same length *)
  yy <- comprehension (fun seq => augment_of utils seq markers [0; 1; 0]%Z false) y ;;
  (* this is a marker to separate dummies of x and y at the end of the sequence *)
  z1 <- np_zeros (batch_size self) 1 (data_bits self) ;;
  inter_seq <- add_ctrl_of utils z1 ctrl_inter pos ;;
  (* this is a marker between sub sequence x and y *)
  z2 <- np_zeros (batch_size self) 1 (data_bits self) ;;
  inter_xy <- add_ctrl_of utils z2 ctrl_xy pos ;;
  (* data which contains all xs and all rotated ys plus dummies of ys *)
  data_1 <- collect (interleave self inter_xy) (combine xx yy) ;;
  (* dummies of xs *)
  data_2 <- collect (fun a => d <- getlast a ;; Ok [time_from 1 d]) xx ;;
  (* concatenate all parts of the inputs *)
  inputs <- concatenate (data_1 ++ [inter_seq] ++ data_2) ;;
  Ok (inputs, target).

(** [generate_batch] over the encoder [utils]. *)
Definition generate_batch_with : M episode :=
  xy <~ sample self ;;
  lift (it <- assemble_with (fst xy) (snd xy) ;; reconcile self (fst it) (snd it)).

End OverEncoder.

(** Construct the problem from its parameters, then generate one batch
    over the encoder [utils]. *)
Definition run_with (utils : encoder) (p : params) : M episode :=
  fun s => match init p with
           | Ok self => generate_batch_with utils self s
           | Raise e => Raise e
           end.

(** The encoder as the spec describes it. *)
Definition spec_encoder : encoder :=
  Encoder (fun seq ctrl pos => Ok (add_ctrl seq ctrl pos))
          (fun seq markers ctrl_start add_marker_data =>
             Ok (augment seq markers ctrl_start add_marker_data)).

(** The control channel of a block does not depend on the batch index:
    on each of the [cb] leading channels, every batch row carries what
    row 0 carries. *)
Definition uniform_control (cb : nat) (a : ndarray) : Prop :=
  forall b t c, b < dim0 a -> t < dim1 a -> c < cb -> c < dim2 a ->
                item a b t c = item a 0 t c.

(** An encoder that broadcasts the control patterns over the batch: on
    the markers of [generate_batch] and patterns of three values, every
    block it returns has a control channel that does not depend on the
    batch index. *)
Definition broadcasts_control (cb : nat) (utils : encoder) : Prop :=
  (forall seq ctrl out,
      List.length ctrl = 3 ->
      add_ctrl_of utils seq ctrl pos = Ok out -> uniform_control cb out) /\
  (forall seq ctrl_start add_marker_data parts,
      List.length ctrl_start = 3 ->
      augment_of utils seq markers ctrl_start add_marker_data = Ok parts ->
      Forall (uniform_control cb) parts).

(** An encoder for the examples, laid out as the docstring and the
    comments of [generate_batch] show the inputs
    ([# x1 % y1 & d1 ... $ d`]): the pattern goes in front of the bits;
    [augment] returns the data block, behind its start marker when one
    is asked for, and the dummies behind a marker row tagged
    [ctrl_dummy]; the dummies are zero in the data bits and carry a
    control channel of ones, the pattern the mask of lines 120-123
    selects and line 126 resets. *)
Definition marked_dummies (seq : ndarray) (markers : list Z * list Z * list nat)
           (ctrl_start : list Z) (add_marker_data : bool)
  : result (list ndarray) :=
  let '(ctrl_data, ctrl_dummy, pos) := markers in
  let w := add_ctrl seq ctrl_data pos in
  let start := add_ctrl (zeros (dim0 seq) 1 (dim2 seq)) ctrl_start pos in
  w <- (if add_marker_data then concatenate [start; w] else Ok w) ;;
  let start_dummy := add_ctrl (zeros (dim0 seq) 1 (dim2 seq)) ctrl_dummy pos in
  let dummies := add_ctrl (zeros_like seq) (map (fun _ => 1%Z) ctrl_dummy) pos in
  d <- concatenate [start_dummy; dummies] ;;
  Ok [w; d].

Definition docstring_encoder : encoder :=
  Encoder (fun seq ctrl pos => Ok (add_ctrl seq ctrl pos)) marked_dummies.

(** The parameters of [small_problem]. *)
Definition small_params : params :=
  Params 1 3 1 1 1 1 1 (1 # 2) (PyFloat (1 # 2)).

(** What [generate_batch] returns over [docstring_encoder] on the example
    configuration (two batch rows) and on the small one, with the
    counting tape. *)
Definition nothing : episode * tape :=
  (zeros 0 0 0, zeros 0 0 0, Bool2 0 0 (fun _ _ => false), counting_tape).

Definition example_run : episode * tape :=
  value_or nothing (run_with docstring_encoder example_params counting_tape).

Definition small_run : episode * tape :=
  value_or nothing (run_with docstring_encoder small_params counting_tape).

(** The true entries of a row of a mask, as time-steps. *)
Definition selected (mask : bool2) (b : nat) : list nat :=
  positions (entry mask b) (cols mask).

(* ================================================================== *)
(** * [models/dwm/dwm_model.py]: the forward pass of [DWM] *)
(* ================================================================== *)

(** The cell of the model ([DWMCell], of [models/dwm/dwm_cell.py]) is not
    among the sources: the forward pass is modelled over an arbitrary
    cell.  [X] is a time slice [inputs[..., j, :]] of the inputs, [Y] the
    output of the cell for one time-step, [S] its state and [H] what the
    time plot records of a state.  A tensor is seen along its time axis,
    as the list of its time slices: the output, built by concatenation
    along that axis, is the list of the outputs of the cell. *)
Section DWMModel.

Variables X Y S H : Type.

(** [self.DWMCell(x, cell_state)] *)
Variable DWMCell : X -> S -> option Y * S.

(** [self.DWMCell.init_state(memory_addresses_size, batch_size, dtype)] *)
Variable init_state : Z -> nat -> S.

(** The triple of arrays [forward] appends to the history. *)
Variable snapshot : S -> H.

(** The inputs of [forward]: a tensor [batch, sequence, size], or with
    one more axis [batch, channel, sequence, size]. *)
Inductive dwm_inputs : Type :=
| Rank3 (batch_size : nat) (steps : list X)
| Rank4 (batch_size : nat) (channels : list (list X)).

(** The attributes of the model that [forward] reads or writes. *)
Record DWM : Type := Model {
  num_shift : Z;
  memory_addresses_size : Z;
  cell_state_history : option (list H)
}.

(** [DWM.set_memory_size] *)
Definition set_memory_size (self : DWM) (mem_size : Z) : DWM :=
  Model (num_shift self) mem_size (cell_state_history self).

(** Lines 85-91: the number of memory addresses for a sequence. *)
Definition memory_size (self : DWM) (seq_length : nat) : Z :=
  if (memory_addresses_size self =? -1)%Z then
    if (Z.of_nat seq_length <? num_shift self)%Z
    then num_shift self
    else Z.of_nat seq_length
  else memory_addresses_size self.

(** Number of time-steps of an output ([None] has none). *)
Definition time_steps (output : option (list Y)) : nat :=
  match output with
  | None => 0
  | Some out => List.length out
  end.

(** Lines 100-118: the loop over the time-steps. *)
Fixpoint forward_loop (visualize : bool) (steps : list X) (cell_state : S)
         (output : option (list Y)) (history : list H)
  : option (list Y) * list H :=
  match steps with
  | [] => (output, history)
  | x :: rest =>
      let '(output_cell, cell_state) := DWMCell x cell_state in
      match output_cell with
      | None => forward_loop visualize rest cell_state output history
      | Some output_cell =>
          let output := match output with
                        | None => Some [output_cell]
                        | Some out => Some (out ++ [output_cell])
                        end in
          (* This is for the time plot *)
          let history := if visualize
                         then history ++ [snapshot cell_state]
                         else history in
          forward_loop visualize rest cell_state output history
      end
  end.

(** [DWM.forward], with [visualize] the flag [self.app_state.visualize]:
    the model after the call and what the call returns. *)
Definition forward (visualize : bool) (self : DWM) (inputs : dwm_inputs)
  : DWM * result (option (list Y)) :=
  let self := if visualize
              then Model (num_shift self) (memory_addresses_size self) (Some [])
              else self in
  let sliced := match inputs with
                | Rank3 batch_size steps => Ok (batch_size, steps)
                | Rank4 batch_size channels =>
                    steps <- getitem channels 0 ;; Ok (batch_size, steps)
                end in
  match sliced with
  | Raise e => (self, Raise e)
  | Ok (batch_size, steps) =>
      let seq_length := List.length steps in
      (* Init state *)
      let cell_state := init_state (memory_size self seq_length) batch_size in
      (* loop over the different sequences *)
      let '(output, history) := forward_loop visualize steps cell_state None [] in
      (if visualize
       then Model (num_shift self) (memory_addresses_size self) (Some history)
       else self,
       Ok output)
  end.

End DWMModel.

Arguments Rank3 {X} batch_size steps.
Arguments Rank4 {X} batch_size channels.
Arguments Model {H} num_shift memory_addresses_size cell_state_history.
Arguments num_shift {H} d.
Arguments memory_addresses_size {H} d.
Arguments cell_state_history {H} d.
Arguments set_memory_size {H} self mem_size.
Arguments memory_size {H} self seq_length.
Arguments time_steps {Y} output.
Arguments forward_loop {X Y S H} DWMCell snapshot visualize steps cell_state output history.
Arguments forward {X Y S H} DWMCell init_state snapshot visualize self inputs.

(** [inputs.size(-2)] once a fourth axis is dropped: the number of
    time-steps [forward] loops over. *)
Definition sequence_length {X : Type} (inputs : dwm_inputs X) : nat :=
  match inputs with
  | Rank3 _ steps => List.length steps
  | Rank4 _ channels => List.length (hd [] channels)
  end.

(** The outputs the cell yields along a sequence, in time order. *)
Fixpoint yields {X Y S : Type} (DWMCell : X -> S -> option Y * S)
         (steps : list X) (cell_state : S) : list Y :=
  match steps with
  | [] => []
  | x :: rest =>
      let '(output_cell, cell_state) := DWMCell x cell_state in
      match output_cell with
      | None => yields DWMCell rest cell_state
      | Some output_cell => output_cell :: yields DWMCell rest cell_state
      end
  end.

(** A cell over numbers, for examples: it adds its input to its state and
    yields the sum when it is even. *)
Definition even_sums (x : Z) (s : Z) : option Z * Z :=
  (if Z.even (x + s) then Some (x + s)%Z else None, (x + s)%Z).

(** A model in automatic memory mode with a shift size of 3. *)
Definition auto_model : DWM Z := Model 3 (-1) None.

(* ================================================================== *)
(** * Properties of [rotate] *)
(* ================================================================== *)

Section RotateFacts.

Lemma same_array_refl (a : ndarray) : same_array a a.
Proof. repeat split. Qed.

Lemma same_array_sym (a b : ndarray) : same_array a b -> same_array b a.
Proof.
  intros (H0 & H1 & H2 & H). repeat split; try congruence.
  intros i t c Hi Ht Hc. symmetry. apply H; congruence.
Qed.

Lemma slice_bound_nonneg (k : Z) (n : nat) :
  (0 <= k)%Z -> slice_bound k n = Nat.min (Z.to_nat k) n.
Proof.
  intros Hk. unfold slice_bound.
  destruct (Z.ltb_spec k 0); [lia | reflexivity].
Qed.

Lemma Qfloor_div_inject (v n : Z) :
  (0 < n)%Z -> Qfloor (inject_Z v / inject_Z n) = (v / n)%Z.
Proof.
  intros Hn. destruct n as [|p|p]; try lia.
  unfold Qdiv, Qinv, inject_Z, Qmult, Qfloor. simpl Qnum. simpl Qden.
  rewrite Z.mul_1_r. reflexivity.
Qed.

(** On a positive length, the remainder of a rounded scalar converts to
    the integer remainder. *)
Lemma to_int_remainder (x : number) (n : Z) :
  (0 < n)%Z ->
  to_int (remainder (Np.round x) n) = Ok (int_value (Np.round x) mod n)%Z.
Proof.
  intros Hn. destruct x as [z|q]; cbn [Np.round remainder int_value].
  - destruct (Z.eqb_spec n 0); [lia | reflexivity].
  - destruct (Z.eqb_spec n 0); [lia |].
    set (v := round_half_even q).
    rewrite Qfloor_div_inject by assumption. rewrite Qfloor_Z.
    assert (E : Qeq (inject_Z v - inject_Z n * inject_Z (v / n))
                    (inject_Z (v mod n))).
    { rewrite Z.mod_eq by lia. rewrite <- inject_Z_mult.
      unfold Qminus. rewrite <- inject_Z_opp, <- inject_Z_plus.
      apply inject_Z_injective. lia. }
    cbn [to_int]. f_equal.
    destruct (Qle_bool 0 _).
    + rewrite (Qfloor_comp _ _ E). apply Qfloor_Z.
    + rewrite (Qceiling_comp _ _ E). apply Qceiling_Z.
Qed.

Lemma rotate_unfold (seq : ndarray) (rotation : number) (L : Z) :
  (0 < L)%Z ->
  rotate seq rotation L
  = concatenate [time_from (offset rotation L) seq;
                 time_upto (offset rotation L) seq].
Proof.
  intros HL. unfold rotate, offset, rounded_shift.
  rewrite to_int_remainder by assumption. reflexivity.
Qed.

(** What the slicing and concatenation of [rotate] compute: item [t] of
    the result is item [(t + k) mod L] of the argument. *)
Lemma concatenate_slices (seq : ndarray) (k : Z) :
  (0 <= k < Z.of_nat (dim1 seq))%Z ->
  returns (concatenate [time_from k seq; time_upto k seq])
          (fun out =>
             dim0 out = dim0 seq /\ dim1 out = dim1 seq /\ dim2 out = dim2 seq /\
             forall i t c, t < dim1 seq ->
               item out i t c
               = item seq i ((t + Z.to_nat k) mod dim1 seq) c).
Proof.
  intros Hk. unfold concatenate. simpl forallb.
  rewrite !Nat.eqb_refl. simpl.
  rewrite slice_bound_nonneg by lia.
  assert (Hm : Nat.min (Z.to_nat k) (dim1 seq) = Z.to_nat k) by lia.
  rewrite Hm. repeat split; try lia.
  intros i t c Ht.
  destruct (Nat.ltb_spec t (dim1 seq - Z.to_nat k)) as [Hlt|Hge].
  - rewrite Nat.mod_small by lia. f_equal. lia.
  - destruct (Nat.ltb_spec (t - (dim1 seq - Z.to_nat k)) (Z.to_nat k)); [|lia].
    f_equal.
    replace (t + Z.to_nat k)
      with ((t - (dim1 seq - Z.to_nat k)) + 1 * dim1 seq) by lia.
    rewrite Nat.Div0.mod_add. rewrite Nat.mod_small by lia. reflexivity.
Qed.

Lemma offset_range (rotation : number) (L : Z) :
  (0 < L)%Z -> (0 <= offset rotation L < L)%Z.
Proof. intros HL. unfold offset. apply Z.mod_pos_bound. assumption. Qed.

(** [rotate] on a block whose time axis has the length passed: a circular
    shift to the left by [offset]. *)
Lemma rotate_left_shift (seq : ndarray) (rotation : number) :
  1 <= dim1 seq ->
  returns (rotate seq rotation (Z.of_nat (dim1 seq)))
          (fun out =>
             dim0 out = dim0 seq /\ dim1 out = dim1 seq /\ dim2 out = dim2 seq /\
             forall i t c, t < dim1 seq ->
               item out i t c
               = item seq i ((t + Z.to_nat (offset rotation (Z.of_nat (dim1 seq))))
                             mod dim1 seq) c).
Proof.
  intros HL. rewrite rotate_unfold by lia.
  apply concatenate_slices. apply offset_range. lia.
Qed.

Lemma returns_impl {A : Type} (r : result A) (P Q : A -> Prop) :
  (forall a, P a -> Q a) -> returns r P -> returns r Q.
Proof. destruct r; simpl; auto. Qed.

Lemma returns_inv {A : Type} (r : result A) (P : A -> Prop) :
  returns r P -> exists a, r = Ok a /\ P a.
Proof. destruct r; simpl; [eauto | tauto]. Qed.

End RotateFacts.

Section RotateClaims.

Lemma concatenate_slices_ok (seq : ndarray) (k : Z) :
  exists out, concatenate [time_from k seq; time_upto k seq] = Ok out.
Proof.
  unfold concatenate. simpl forallb. rewrite !Nat.eqb_refl. simpl. eauto.
Qed.

Lemma round_half_even_comp (p q : Q) :
  Qeq p q -> round_half_even p = round_half_even q.
Proof.
  intros E. unfold round_half_even.
  rewrite (Qfloor_comp _ _ E).
  assert (E' : Qeq (p - inject_Z (Qfloor q))%Q (q - inject_Z (Qfloor q))%Q)
    by (rewrite E; reflexivity).
  rewrite (Qcompare_comp _ _ E' (1 # 2)%Q (1 # 2)%Q (Qeq_refl _)).
  reflexivity.
Qed.

Lemma round_half_even_Z (z : Z) : round_half_even (inject_Z z) = z.
Proof.
  unfold round_half_even. rewrite Qfloor_Z.
  assert (H : (inject_Z z - inject_Z z ?= 1 # 2)%Q = Lt).
  { apply Qlt_alt.
    assert (E : Qeq (inject_Z z - inject_Z z)%Q 0%Q) by ring.
    rewrite E. reflexivity. }
  rewrite H. reflexivity.
Qed.

Lemma int_value_round_num_eq (x y : number) :
  num_eq (Np.round x) (Np.round y) ->
  int_value (Np.round x) = int_value (Np.round y).
Proof.
  destruct x as [a|p], y as [b|q]; cbn [Np.round num_eq int_value]; intros E.
  - assumption.
  - rewrite Qfloor_Z. apply inject_Z_injective. assumption.
  - rewrite Qfloor_Z. apply inject_Z_injective. assumption.
  - rewrite !Qfloor_Z. apply inject_Z_injective. assumption.
Qed.


End RotateClaims.

(** C1.  [rotate] on the block [10; 20; 30] with the absolute rotation 2
    and length 3: the code returns [30; 10; 20], every item moved two
    steps to the left (item [t] of the result is item [(t + 2) mod 3] of
    the block), where the shift to the right by the offset 2 that the
    claim and the comments of the function describe is [20; 30; 10]. *)
Theorem rotate_moves_items_left :
  offset (PyInt 2) 3 = 2%Z /\
  returns (rotate abc (PyInt 2) 3)
          (fun out => to_rows out = [[[30]; [10]; [20]]]%Z) /\
  to_rows (right_shift abc (offset (PyInt 2) 3)) = [[[20]; [30]; [10]]]%Z.
Proof. repeat split. Qed.

(** C6.  For every block and every length [L >= 1]: a relative rotation
    [r] ([-1 <= r <= 1]) and an absolute rotation [a] (outside that range)
    whose amounts coincide after rounding, [round(r * L) == round(a)],
    give the same rotated block. *)
Theorem rotate_relative_absolute_agree
        (block : ndarray) (r a : number) (L : Z) :
  (1 <= L)%Z ->
  in_unit_range r = true ->
  in_unit_range a = false ->
  num_eq (Np.round (mul_int r L)) (Np.round a) ->
  same_result (rotate block r L) (rotate block a L).
Proof.
  intros HL Hr Ha E.
  rewrite !rotate_unfold by lia.
  assert (Ho : offset r L = offset a L).
  { unfold offset, rounded_shift. rewrite Hr, Ha.
    rewrite (int_value_round_num_eq _ _ E). reflexivity. }
  rewrite Ho.
  destruct (concatenate_slices_ok block (offset a L)) as [out Hout].
  rewrite Hout. simpl. apply same_array_refl.
Qed.

Lemma rotate_relative_absolute_agree_witness :
  same_result (rotate five_steps (PyFloat (1 # 2)) 5)
              (rotate five_steps (PyFloat (12 # 5)) 5).
Proof.
  apply rotate_relative_absolute_agree.
  - lia.
  - reflexivity.
  - reflexivity.
  - vm_compute. reflexivity.
Defined.

(** C8 as the code has it.  With sequence length 0, [rotate] raises
    [ValueError] for every float rotation (the remainder is NaN and [int]
    rejects it), and returns the block unchanged for every integer
    rotation (the integer remainder by zero is 0). *)
Theorem rotate_zero_length (block : ndarray) :
  (forall q, rotate block (PyFloat q) 0
             = Raise (ValueError "cannot convert float NaN to integer")) /\
  (forall z, returns (rotate block (PyInt z) 0)
                     (fun out => same_array out block)).
Proof.
  split.
  - intros q. unfold rotate.
    destruct (in_unit_range (PyFloat q)); reflexivity.
  - intros z. unfold rotate.
    assert (E : to_int (remainder (Np.round (if in_unit_range (PyInt z)
                                             then mul_int (PyInt z) 0
                                             else PyInt z)) 0) = Ok 0%Z)
      by (destruct (in_unit_range (PyInt z)); reflexivity).
    rewrite E. cbn [bind]. unfold concatenate. simpl forallb.
    rewrite !Nat.eqb_refl. cbn [andb returns].
    unfold same_array. cbn [dim0 dim1 dim2 item time_from time_upto map list_sum].
    rewrite !slice_bound_nonneg by lia. cbn [Z.to_nat Nat.min].
    repeat split; [simpl; lia |].
    intros i t c _ Ht _. simpl in Ht.
    cbn [concat_item dim1 item time_from]. rewrite slice_bound_nonneg by lia.
    cbn [Z.to_nat Nat.min Nat.add].
    destruct (Nat.ltb_spec t (dim1 block - 0)); [reflexivity | lia].
Qed.

(** C8, counterexample: a call with sequence length 0 that returns. *)
Lemma rotate_zero_length_returns :
  returns (rotate no_step (PyInt 2) 0) (fun out => to_rows out = [[]]).
Proof. reflexivity. Qed.

(* ================================================================== *)
(** * The mask and the reconciler *)
(* ================================================================== *)

Section Reconciler.

Variable self : InterruptionSwapRecall.

Lemma mask_loop_spec (mask_all : bool3) (range : list nat) :
  forall mask m,
    mask_loop mask_all range mask = Ok m ->
    (forall i, In i range -> i < bdim2 mask_all) /\
    (range <> [] -> rows m = bdim0 mask_all /\ cols m = bdim1 mask_all) /\
    (range = [] -> m = mask) /\
    forall b t, entry m b t
                = forallb (fun i => bitem mask_all b t i) range && entry mask b t.
Proof.
  induction range as [|i r IH]; intros mask m H.
  - simpl in H. injection H as <-. repeat split; try tauto.
    intros i [].
  - simpl in H. unfold last_axis in H.
    destruct (Nat.ltb_spec i (bdim2 mask_all)) as [Hi|Hi]; [|discriminate].
    cbn [bind] in H. apply IH in H. destruct H as (Hr & Hd & Hn & He).
    split; [|split; [|split]].
    + intros j [<-|Hj]; auto.
    + intros _. destruct r as [|i' r'].
      * rewrite (Hn eq_refl). split; reflexivity.
      * apply Hd. discriminate.
    + discriminate.
    + intros b t. rewrite He. simpl.
      destruct (bitem mask_all b t i), (forallb _ r); reflexivity.
Qed.

Lemma mask_loop_total (mask_all : bool3) (range : list nat) :
  (forall i, In i range -> i < bdim2 mask_all) ->
  forall mask, exists m, mask_loop mask_all range mask = Ok m.
Proof.
  induction range as [|i r IH]; intros Hr mask.
  - simpl. eauto.
  - simpl. unfold last_axis.
    destruct (Nat.ltb_spec i (bdim2 mask_all)) as [Hi|Hi].
    + cbn [bind]. apply IH. intros j Hj. apply Hr. right. assumption.
    + exfalso. specialize (Hr i (or_introl eq_refl)). lia.
Qed.

(** What [create_mask] computes when it returns. *)
Lemma create_mask_spec (inputs : ndarray) (mask : bool2) :
  (1 <= control_bits self)%Z ->
  create_mask self inputs = Ok mask ->
  rows mask = dim0 inputs /\ cols mask = dim1 inputs /\
  forall b t, entry mask b t = true <->
              forall c, c < Z.to_nat (control_bits self) ->
                        item inputs b t c = 1%Z.
Proof.
  intros Hcb H. unfold create_mask in H.
  set (mask_all := eq_scalar (bits_upto (control_bits self) inputs) 1) in *.
  unfold last_axis in H at 1.
  destruct (Nat.ltb_spec 0 (bdim2 mask_all)) as [H0|H0]; [|discriminate].
  cbn [bind] in H. apply mask_loop_spec in H.
  destruct H as (_ & Hd & _ & He).
  assert (Hne : seq 0 (Z.to_nat (control_bits self)) <> []).
  { destruct (Z.to_nat (control_bits self)) eqn:E; [lia | discriminate]. }
  destruct (Hd Hne) as [Hrows Hcols].
  split; [exact Hrows | split; [exact Hcols |]].
  intros b t. rewrite He. cbn [entry].
  rewrite andb_true_iff, forallb_forall. split.
  - intros [Hall _] c Hc. apply Z.eqb_eq.
    apply (Hall c). apply in_seq. lia.
  - intros Hall. split.
    + intros c Hc. apply in_seq in Hc. apply Z.eqb_eq. apply Hall. lia.
    + apply Z.eqb_eq. apply Hall. lia.
Qed.

(** [create_mask] returns when the control slice fits in the tensor. *)
Lemma create_mask_total (inputs : ndarray) :
  (1 <= control_bits self <= Z.of_nat (dim2 inputs))%Z ->
  exists mask, create_mask self inputs = Ok mask.
Proof.
  intros Hcb. unfold create_mask.
  set (mask_all := eq_scalar (bits_upto (control_bits self) inputs) 1).
  assert (Hw : bdim2 mask_all = Z.to_nat (control_bits self)).
  { unfold mask_all. cbn [eq_scalar bdim2 bits_upto dim2].
    rewrite slice_bound_nonneg by lia. lia. }
  unfold last_axis at 1.
  destruct (Nat.ltb_spec 0 (bdim2 mask_all)) as [H0|H0]; [|lia].
  cbn [bind]. apply mask_loop_total.
  intros i Hi. apply in_seq in Hi. lia.
Qed.

Lemma reconcile_inv (inputs target inputs' twd : ndarray) (mask : bool2) :
  reconcile self inputs target = Ok (inputs', twd, mask) ->
  create_mask self inputs = Ok mask /\
  0 < rows mask /\
  inputs' = setitem_time_bits inputs (entry mask 0) (control_bits self) 0 /\
  setitem_time (zeros_like (bits_from (control_bits self) inputs'))
               (entry mask 0) target = Ok twd.
Proof.
  unfold reconcile. intros H.
  destruct (create_mask self inputs) as [m|e]; [|discriminate].
  cbn [bind] in H. unfold row0 in H.
  destruct (Nat.ltb_spec 0 (rows m)) as [Hr|Hr]; [|discriminate].
  cbn [bind] in H.
  destruct (setitem_time _ (entry m 0) target) as [w|e] eqn:Hw; [|discriminate].
  cbn [bind] in H. injection H as H1 H2 H3. subst.
  repeat split; auto.
Qed.

Lemma setitem_time_inv (a value out : ndarray) (sel : nat -> bool) :
  setitem_time a sel value = Ok out ->
  broadcasts (dim0 value) (dim0 a) = true /\
  broadcasts (dim1 value) (count_true sel (dim1 a)) = true /\
  broadcasts (dim2 value) (dim2 a) = true /\
  dim0 out = dim0 a /\ dim1 out = dim1 a /\ dim2 out = dim2 a /\
  forall i t c,
    item out i t c
    = if sel t
      then item value (bidx (dim0 value) i) (bidx (dim1 value) (rank sel t))
                      (bidx (dim2 value) c)
      else item a i t c.
Proof.
  unfold setitem_time. intros H.
  destruct (broadcasts (dim0 value) (dim0 a)); [|discriminate].
  destruct (broadcasts (dim1 value) _); [|discriminate].
  destruct (broadcasts (dim2 value) (dim2 a)); [|discriminate].
  cbn [andb] in H. injection H as <-. repeat split.
Qed.

Lemma bidx_id (v i : nat) : i < v -> bidx v i = i.
Proof.
  intros Hi. unfold bidx. destruct (Nat.eqb_spec v 1); [lia | reflexivity].
Qed.

Lemma positions_S (sel : nat -> bool) (n : nat) :
  positions sel (S n) = positions sel n ++ (if sel n then [n] else []).
Proof.
  unfold positions. rewrite seq_S, filter_app. simpl.
  destruct (sel n); reflexivity.
Qed.

(** The [j]-th selected time-step is selected, in range, and has rank [j]. *)
Lemma nth_position (sel : nat -> bool) (n : nat) :
  forall j, j < count_true sel n ->
    let t := nth j (positions sel n) 0 in
    t < n /\ sel t = true /\ rank sel t = j.
Proof.
  unfold count_true, rank.
  induction n as [|n IH]; intros j Hj.
  - simpl in Hj. lia.
  - rewrite positions_S in *. rewrite length_app in Hj.
    destruct (Nat.lt_ge_cases j (List.length (positions sel n))) as [Hlt|Hge].
    + rewrite app_nth1 by assumption.
      destruct (IH j Hlt) as (H1 & H2 & H3). auto.
    + destruct (sel n) eqn:Hn; simpl in Hj; [|lia].
      assert (j = List.length (positions sel n)) by lia. subst j.
      rewrite app_nth2 by lia. rewrite Nat.sub_diag. simpl.
      auto.
Qed.

End Reconciler.

(** Every episode [generate_batch] returns is what the reconciler returns
    on the assembled inputs and target. *)
Lemma generate_batch_inv (self : InterruptionSwapRecall) (s s' : tape)
      (ep : episode) :
  generate_batch self s = Ok (ep, s') ->
  exists x y inputs target,
    sample self s = Ok (x, y, s') /\
    assemble self x y = Ok (inputs, target) /\
    reconcile self inputs target = Ok ep.
Proof.
  unfold generate_batch, bindM, lift. intros H.
  destruct (sample self s) as [[[x y] s1]|e] eqn:Hs; [|discriminate].
  cbn [fst snd] in H.
  destruct (assemble self x y) as [[inputs target]|e] eqn:Ha; [|discriminate].
  cbn [bind fst snd] in H.
  destruct (reconcile self inputs target) as [ep'|e] eqn:Hr; [|discriminate].
  injection H as <- <-. exists x, y, inputs, target. auto.
Qed.

(** C2, counterexample.  On a raw time-step whose control channel is the
    DUMMY marker [0; 0; 1] the mask of the code is false. *)
Lemma mask_rejects_dummy_marker :
  map (item dummy_step 0 0) (seq 0 3) = ctrl_dummy /\
  returns (create_mask small_problem dummy_step)
          (fun mask => entry mask 0 0 = false).
Proof. split; reflexivity. Qed.

(** C2 as the code has it.  The mask computed from the raw input tensor
    is true at [(b, t)] if and only if every one of the [control_bits]
    leading channels of the raw input at [(b, t)] equals 1. *)
Theorem create_mask_selects_all_ones
        (self : InterruptionSwapRecall) (inputs : ndarray) :
  (3 <= control_bits self <= Z.of_nat (dim2 inputs))%Z ->
  returns (create_mask self inputs)
          (fun mask =>
             rows mask = dim0 inputs /\ cols mask = dim1 inputs /\
             forall b t, entry mask b t = true <->
                         forall c, c < Z.to_nat (control_bits self) ->
                                   item inputs b t c = 1%Z).
Proof.
  intros Hcb.
  destruct (create_mask_total self inputs) as [mask Hm]; [lia |].
  rewrite Hm. cbn [returns].
  apply create_mask_spec; [lia | assumption].
Qed.

Lemma create_mask_selects_all_ones_witness :
  returns (create_mask small_problem marked_input)
          (fun mask =>
             rows mask = 1 /\ cols mask = 3 /\
             forall b t, entry mask b t = true <->
                         forall c, c < 3 -> item marked_input b t c = 1%Z).
Proof.
  apply (create_mask_selects_all_ones small_problem marked_input).
  simpl. lia.
Defined.

(** C4.  Let the raw target be [concat(y + x)], of the shape of the data
    part of the inputs and with a number of rows other than one (a single
    row would be repeated by the scatter; on a valid configuration there
    are at least two).  Whenever the reconciler returns an episode, and
    so whenever [generate_batch] does ([generate_batch_inv]), the targets
    read at the time-steps selected by [mask[0]], in increasing time
    order, are the raw target bit for bit, and the targets are zero at
    every other time-step. *)
Theorem targets_select_recovers_target
        (self : InterruptionSwapRecall) (x y : list ndarray)
        (inputs target inputs' twd : ndarray) (mask : bool2) :
  (3 <= control_bits self)%Z ->
  concatenate (y ++ x) = Ok target ->
  dim0 target = dim0 inputs ->
  dim2 target = dim2 inputs - Z.to_nat (control_bits self) ->
  dim1 target <> 1 ->
  reconcile self inputs target = Ok (inputs', twd, mask) ->
  same_array (getitem_time twd (entry mask 0)) target /\
  forall b t c, entry mask 0 t = false -> item twd b t c = 0%Z.
Proof.
  intros Hcb _ Hd0 Hd2 Hd1 H.
  apply reconcile_inv in H. destruct H as (_ & _ & -> & Hs).
  apply setitem_time_inv in Hs.
  destruct Hs as (_ & B1 & _ & E0 & E1 & E2 & Hitem).
  cbn [zeros_like zeros bits_from setitem_time_bits dim0 dim1 dim2 item] in *.
  rewrite slice_bound_nonneg in E2 by lia.
  assert (Hcount : count_true (entry mask 0) (dim1 inputs) = dim1 target).
  { unfold broadcasts in B1. apply orb_true_iff in B1.
    destruct B1 as [B1|B1]; apply Nat.eqb_eq in B1; congruence. }
  split.
  - unfold same_array, getitem_time. cbn [dim0 dim1 dim2 item].
    rewrite E0, E1, E2, Hcount.
    repeat split; try lia.
    intros i j c Hi Hj Hc.
    destruct (nth_position (entry mask 0) (dim1 inputs) j) as (Ht & Hsel & Hr);
      [lia |].
    rewrite Hitem, Hsel, Hr.
    rewrite !bidx_id by lia. reflexivity.
  - intros b t c Hsel. rewrite Hitem, Hsel. reflexivity.
Qed.

Lemma targets_select_recovers_target_witness :
  same_array (getitem_time (snd (fst marked_episode))
                           (entry (snd marked_episode) 0))
             two_rows /\
  forall b t c, entry (snd marked_episode) 0 t = false ->
                item (snd (fst marked_episode)) b t c = 0%Z.
Proof.
  apply (targets_select_recovers_target small_problem [one_x] [one_y]
           marked_input two_rows
           (fst (fst marked_episode)) (snd (fst marked_episode))
           (snd marked_episode)).
  - simpl. lia.
  - reflexivity.
  - reflexivity.
  - reflexivity.
  - simpl. lia.
  - reflexivity.
Defined.

(** C9.  When the reconciler returns, the mask it returns is the one
    computed from the raw inputs, and the inputs it returns differ from
    the raw inputs only in the control channel of the time-steps selected
    by [mask[0]]: every channel from [control_bits] on is unchanged at
    every time-step, every channel is unchanged at the time-steps not
    selected, and the control channel is zero at the selected ones. *)
Theorem reset_ctrl_changes_nothing_else
        (self : InterruptionSwapRecall)
        (inputs target inputs' twd : ndarray) (mask : bool2) :
  (3 <= control_bits self)%Z ->
  reconcile self inputs target = Ok (inputs', twd, mask) ->
  create_mask self inputs = Ok mask /\
  (dim0 inputs' = dim0 inputs /\ dim1 inputs' = dim1 inputs /\
   dim2 inputs' = dim2 inputs) /\
  (forall b t c, Z.to_nat (control_bits self) <= c ->
                 item inputs' b t c = item inputs b t c) /\
  (forall b t c, entry mask 0 t = false ->
                 item inputs' b t c = item inputs b t c) /\
  (forall b t c, entry mask 0 t = true ->
                 c < Z.to_nat (control_bits self) -> c < dim2 inputs ->
                 item inputs' b t c = 0%Z).
Proof.
  intros Hcb H.
  apply reconcile_inv in H. destruct H as (Hm & _ & -> & _).
  split; [assumption |].
  unfold setitem_time_bits. cbn [dim0 dim1 dim2 item].
  rewrite slice_bound_nonneg by lia.
  repeat split.
  - intros b t c Hc.
    destruct (Nat.ltb_spec c (Nat.min (Z.to_nat (control_bits self)) (dim2 inputs)));
      [lia |].
    rewrite andb_false_r. reflexivity.
  - intros b t c Hsel. rewrite Hsel. reflexivity.
  - intros b t c Hsel Hc Hw. rewrite Hsel.
    destruct (Nat.ltb_spec c (Nat.min (Z.to_nat (control_bits self)) (dim2 inputs)));
      [reflexivity | lia].
Qed.

Lemma reset_ctrl_changes_nothing_else_witness :
  create_mask small_problem marked_input = Ok (snd marked_episode) /\
  to_rows (fst (fst marked_episode))
  = [[[0; 0; 0; 5]; [0; 0; 1; 6]; [0; 0; 0; 7]]]%Z.
Proof.
  split.
  - apply (reset_ctrl_changes_nothing_else small_problem marked_input two_rows
             (fst (fst marked_episode)) (snd (fst marked_episode))
             (snd marked_episode)).
    + simpl. lia.
    + reflexivity.
  - reflexivity.
Defined.

(* ================================================================== *)
(** * Configuration errors *)
(* ================================================================== *)

Section ConfigurationErrors.





End ConfigurationErrors.



(* ================================================================== *)
(** * Sampling and assembly *)
(* ================================================================== *)

Section Sampling.

Variable self : InterruptionSwapRecall.

Hypothesis batch_pos : (1 <= batch_size self)%Z.
Hypothesis data_pos : (1 <= data_bits self)%Z.
Hypothesis length_range :
  (1 <= min_sequence_length self <= max_sequence_length self)%Z.
Hypothesis count_range : (1 <= num_subseq_min self <= num_subseq_max self)%Z.
Hypothesis bias_range : Qle 0 (bias self) /\ Qle (bias self) 1.

Lemma in_range_bounds (low high : Z) (r : nat) :
  (low < high)%Z -> (low <= in_range low high r < high)%Z.
Proof.
  intros H. unfold in_range.
  pose proof (Z.mod_pos_bound (Z.of_nat r) (high - low)). lia.
Qed.

Lemma bias_bool : Qle_bool 0 (bias self) && Qle_bool (bias self) 1 = true.
Proof.
  destruct bias_range as [H0 H1].
  apply andb_true_intro. split; apply Qle_bool_iff; assumption.
Qed.

Lemma mapM_binomial1_drawn (l : list Z) :
  Forall (fun n => (min_sequence_length self <= n <= max_sequence_length self)%Z) l ->
  forall s,
    returns (mapM (fun n => binomial1 (bias self) (batch_size self) n (data_bits self))
                  l s)
            (fun r => List.length (fst r) = List.length l /\
                      Forall (drawn self) (fst r)).
Proof.
  induction 1 as [|n l Hn Hl IH]; intros s.
  - simpl. auto.
  - cbn [mapM]. unfold bindM at 1. unfold binomial1 at 1.
    rewrite bias_bool.
    destruct (Z.ltb_spec (batch_size self) 0); [lia |].
    destruct (Z.ltb_spec n 0); [lia |].
    destruct (Z.ltb_spec (data_bits self) 0); [lia |].
    cbn [orb]. unfold bindM at 1.
    match goal with
    | |- context [mapM _ l ?st] => specialize (IH st)
    end.
    destruct (mapM _ l _) as [[bs s']|e]; [|contradiction].
    cbn [returns fst] in IH |- *. destruct IH as [Hlen Hall].
    unfold ret. cbn [returns fst List.length]. split; [lia |].
    constructor; [|assumption].
    unfold drawn. cbn [dim0 dim1 dim2]. repeat split; lia.
Qed.

Lemma randint_size_range (n : Z) (s : tape) :
  (0 <= n)%Z ->
  returns (randint_size (min_sequence_length self)
                        (max_sequence_length self + 1) n s)
          (fun r => List.length (fst r) = Z.to_nat n /\
                    Forall (fun k => (min_sequence_length self <= k
                                      <= max_sequence_length self)%Z) (fst r)).
Proof.
  intros Hn. unfold randint_size.
  destruct (Z.ltb_spec (min_sequence_length self) (max_sequence_length self + 1));
    [|lia].
  destruct (Z.ltb_spec n 0); [lia |].
  cbn [returns fst]. split.
  - rewrite length_map, length_seq. reflexivity.
  - apply Forall_forall. intros k Hk. apply in_map_iff in Hk.
    destruct Hk as (i & <- & _).
    pose proof (in_range_bounds (min_sequence_length self)
                  (max_sequence_length self + 1) (s i)). lia.
Qed.

(** On a valid configuration the draws succeed: as many [x] as [y], at
    least one of each, every block of the configured shape. *)
Lemma sample_drawn (s : tape) :
  returns (sample self s)
          (fun r => let '(x, y) := fst r in
                    1 <= List.length x /\ List.length x = List.length y /\
                    Forall (drawn self) x /\ Forall (drawn self) y).
Proof.
  unfold sample. unfold bindM at 1. unfold randint.
  destruct (Z.ltb_spec (num_subseq_min self) (num_subseq_max self + 1)); [|lia].
  set (n := in_range _ _ _).
  assert (Hn : (1 <= n)%Z).
  { pose proof (in_range_bounds (num_subseq_min self)
                  (num_subseq_max self + 1) (s 0)). unfold n. lia. }
  unfold bindM at 1.
  pose proof (randint_size_range n (advance 1 s)) as Ha.
  destruct (randint_size _ _ n (advance 1 s)) as [[la s1]|e];
    [|exfalso; apply Ha; lia].
  cbn [returns fst] in Ha. destruct Ha as [Hla Ha]; [lia |].
  unfold bindM at 1.
  pose proof (randint_size_range n s1) as Hb.
  destruct (randint_size _ _ n s1) as [[lb s2]|e];
    [|exfalso; apply Hb; lia].
  cbn [returns fst] in Hb. destruct Hb as [Hlb Hb]; [lia |].
  unfold bindM at 1.
  pose proof (mapM_binomial1_drawn la Ha s2) as Hx.
  destruct (mapM _ la s2) as [[x s3]|e]; [|contradiction].
  cbn [returns fst] in Hx. destruct Hx as [Hxl Hx].
  unfold bindM at 1.
  pose proof (mapM_binomial1_drawn lb Hb s3) as Hy.
  destruct (mapM _ lb s3) as [[y s4]|e]; [|contradiction].
  cbn [returns fst] in Hy. destruct Hy as [Hyl Hy].
  unfold ret. cbn [returns fst].
  repeat split; try assumption; lia.
Qed.

End Sampling.

Section Assembly.

Variable self : InterruptionSwapRecall.

Lemma total_time_cons (a : ndarray) (l : list ndarray) :
  total_time (a :: l) = dim1 a + total_time l.
Proof. reflexivity. Qed.

Lemma total_time_app (l1 l2 : list ndarray) :
  total_time (l1 ++ l2) = total_time l1 + total_time l2.
Proof. unfold total_time. rewrite map_app, list_sum_app. reflexivity. Qed.

Lemma concat_item_row (l : list ndarray) :
  forall t, t < total_time l ->
    exists a t', In a l /\ t' < dim1 a /\
                 forall b c, concat_item l b t c = item a b t' c.
Proof.
  unfold total_time.
  induction l as [|a r IH]; intros t Ht; simpl in Ht.
  - lia.
  - cbn [concat_item]. destruct (Nat.ltb_spec t (dim1 a)) as [Hlt|Hge].
    + exists a, t. split; [left; reflexivity | auto].
    + destruct (IH (t - dim1 a)) as (a' & t' & Hin & Ht' & Hc); [lia |].
      exists a', t'. split; [right; assumption | auto].
Qed.

Lemma concatenate_shape (n0 n2 : nat) (l : list ndarray) :
  l <> [] ->
  Forall (fun a => dim0 a = n0 /\ dim2 a = n2) l ->
  concatenate l = Ok (NDArray n0 (total_time l) n2 (concat_item l)).
Proof.
  intros Hne Hall. destruct l as [|a r]; [congruence |].
  unfold concatenate. inversion Hall as [|? ? [Ha0 Ha2] Hr]; subst.
  assert (Hchk : forallb (fun b => (dim0 b =? dim0 a) && (dim2 b =? dim2 a)) r
                 = true).
  { apply forallb_forall. intros b Hb.
    rewrite Forall_forall in Hr. destruct (Hr b Hb) as [-> ->].
    rewrite !Nat.eqb_refl. reflexivity. }
  rewrite Hchk. reflexivity.
Qed.

Lemma concatenate_encoded (l : list ndarray) :
  l <> [] ->
  Forall (encoded self) l ->
  returns (concatenate l)
          (fun out => encoded self out /\ dim1 out = total_time l).
Proof.
  intros Hne Hall.
  rewrite (concatenate_shape (Z.to_nat (batch_size self))
                             (3 + Z.to_nat (data_bits self))); try assumption.
  - cbn [returns]. unfold encoded. cbn [dim0 dim1 dim2].
    split; [split; [reflexivity | split; [reflexivity |]] | reflexivity].
    intros b t Ht. cbn [item dim1] in *.
    destruct (concat_item_row l t Ht) as (a & t' & Hin & Ht' & Hc).
    rewrite Forall_forall in Hall.
    destruct (Hall a Hin) as (_ & _ & Hno). destruct (Hno b t' Ht') as [Hn Hu].
    split.
    + rewrite !Hc. exact Hn.
    + intros c Hc3. rewrite !Hc. apply Hu. assumption.
  - eapply Forall_impl; [|exact Hall]. intros a (H0 & H2 & _). auto.
Qed.

(** The spec-modelled encoder on the markers of [generate_batch]. *)
Lemma add_ctrl_encoded (a : ndarray) (ctrl : list Z) :
  dim0 a = Z.to_nat (batch_size self) ->
  dim2 a = Z.to_nat (data_bits self) ->
  List.length ctrl = 3 ->
  ~ (nth 0 ctrl 0%Z = 1%Z /\ nth 1 ctrl 0%Z = 1%Z /\ nth 2 ctrl 0%Z = 1%Z) ->
  encoded self (add_ctrl a ctrl pos) /\ dim1 (add_ctrl a ctrl pos) = dim1 a.
Proof.
  intros H0 H2 Hlen Hno. unfold encoded, add_ctrl, marker_layout.
  cbn [dim0 dim1 dim2 item pos hd]. rewrite Hlen.
  split; [split; [assumption | split; [lia |]] | reflexivity].
  intros b t _. rewrite Nat.min_0_l. split.
  - cbn. exact Hno.
  - intros c Hc. cbn [Nat.ltb Nat.leb Nat.add].
    destruct (Nat.leb_spec c 2); [reflexivity | lia].
Qed.

Lemma rotate_encoded (a : ndarray) :
  encoded self a -> 1 <= dim1 a ->
  returns (rotate a (rotation self) (Z.of_nat (dim1 a)))
          (fun out => encoded self out /\ dim1 out = dim1 a).
Proof.
  intros (H0 & H2 & Hno) HL.
  eapply returns_impl; [|apply rotate_left_shift; assumption].
  intros out (E0 & E1 & E2 & Hitem). unfold encoded.
  split; [split; [congruence | split; [congruence |]] | assumption].
  intros b t Ht. rewrite E1 in Ht.
  destruct (Hno b ((t + Z.to_nat (offset (rotation self) (Z.of_nat (dim1 a))))
                   mod dim1 a)) as [Hn Hu].
  { apply Nat.mod_upper_bound. lia. }
  split.
  - rewrite !Hitem by assumption. exact Hn.
  - intros c Hc. rewrite !Hitem by assumption. apply Hu. assumption.
Qed.

Lemma time_from_encoded (a : ndarray) :
  encoded self a -> 1 <= dim1 a ->
  encoded self (time_from 1 a) /\ dim1 (time_from 1 a) + 1 = dim1 a.
Proof.
  intros (H0 & H2 & Hno) HL. unfold encoded, time_from, marker_layout.
  cbn [dim0 dim1 dim2 item]. rewrite slice_bound_nonneg by lia.
  replace (Nat.min (Z.to_nat 1) (dim1 a)) with 1 by lia.
  split; [split; [assumption | split; [assumption |]] | lia].
  intros b t Ht. apply Hno. lia.
Qed.

Lemma drawn_block (a : ndarray) :
  (1 <= min_sequence_length self)%Z -> drawn self a -> nonempty_block self a.
Proof.
  intros Hmin (H0 & H2 & H1). unfold nonempty_block. repeat split; try assumption. lia.
Qed.

Ltac marker :=
  refine (proj1 (add_ctrl_encoded _ _ _ _ _ _));
  [ assumption || reflexivity | assumption || reflexivity | reflexivity
  | cbn; intros (? & ? & ?); discriminate ].

Lemma interleave_encoded (inter_xy x y : ndarray) :
  encoded self inter_xy -> dim1 inter_xy = 1 ->
  nonempty_block self x -> nonempty_block self y ->
  returns (interleave self inter_xy (aug_x x, aug_y y))
          (fun bs => Forall (encoded self) bs /\
                     total_time bs = dim1 x + 2 * dim1 y + 2).
Proof.
  intros Hxy Hxy1 (Hx0 & Hx2 & Hx1) (Hy0 & Hy2 & Hy1).
  unfold interleave, aug_x, aug_y, augment, markers.
  cbn [app getitem nth_error bind removelast].
  destruct (add_ctrl_encoded y ctrl_data Hy0 Hy2 eq_refl) as [Hd Hd1].
  { cbn. intros (? & ? & ?). discriminate. }
  pose proof (rotate_encoded (add_ctrl y ctrl_data pos) Hd) as Hr.
  rewrite Hd1 in Hr. specialize (Hr Hy1).
  rewrite Hd1.
  destruct (rotate _ _ _) as [r|e]; [|contradiction].
  cbn [returns bind] in Hr |- *. destruct Hr as [Hr Hr1].
  split.
  - repeat apply Forall_cons; try apply Forall_nil; try assumption; marker.
  - unfold total_time. cbn [map list_sum fold_right add_ctrl dim1 zeros zeros_like].
    rewrite Hxy1, Hr1. lia.
Qed.

Lemma data_1_encoded (inter_xy : ndarray) :
  encoded self inter_xy -> dim1 inter_xy = 1 ->
  forall x y,
    List.length x = List.length y ->
    Forall (nonempty_block self) x -> Forall (nonempty_block self) y ->
    returns (collect (interleave self inter_xy)
                     (combine (map aug_x x) (map aug_y y)))
            (fun bs => Forall (encoded self) bs /\
                       total_time bs
                       = total_time x + 2 * total_time y + 2 * List.length x).
Proof.
  intros Hxy Hxy1.
  induction x as [|a x IH]; intros y Hlen Hx Hy.
  - destruct y; [|discriminate].
    simpl. split; [apply Forall_nil | reflexivity].
  - destruct y as [|b y]; [discriminate |].
    inversion Hx as [|? ? Ha Hx']; subst.
    inversion Hy as [|? ? Hb Hy']; subst.
    cbn [map combine collect].
    pose proof (interleave_encoded inter_xy a b Hxy Hxy1 Ha Hb) as H1.
    destruct (interleave self inter_xy (aug_x a, aug_y b)) as [bs|e];
      [|contradiction].
    cbn [returns bind] in H1 |- *. destruct H1 as [Hbs Htime].
    specialize (IH y (f_equal pred Hlen) Hx' Hy').
    destruct (collect _ _) as [rest|e]; [|contradiction].
    cbn [returns bind] in IH |- *. destruct IH as [Hrest Hrtime].
    split.
    + apply Forall_app. split; assumption.
    + rewrite total_time_app, !total_time_cons. cbn [List.length]. lia.
Qed.

Lemma data_2_encoded (x : list ndarray) :
  Forall (nonempty_block self) x ->
  returns (collect (fun a => d <- getlast a ;; Ok [time_from 1 d]) (map aug_x x))
          (fun bs => Forall (encoded self) bs /\
                     total_time bs + List.length x = total_time x).
Proof.
  induction 1 as [|a x (Ha0 & Ha2 & Ha1) Hx IH].
  - simpl. split; [apply Forall_nil | reflexivity].
  - cbn [map collect]. unfold aug_x at 1, augment, markers.
    cbn [app getlast rev bind].
    destruct (collect _ _) as [rest|e]; [|contradiction].
    cbn [returns bind] in IH |- *. destruct IH as [Hrest Hrtime].
    destruct (add_ctrl_encoded (zeros_like a) ctrl_dummy Ha0 Ha2 eq_refl)
      as [Hd Hd1].
    { cbn. intros (? & ? & ?). discriminate. }
    destruct (time_from_encoded _ Hd) as [Ht Ht1].
    { rewrite Hd1. exact Ha1. }
    split.
    + constructor; assumption.
    + cbn [app]. rewrite !total_time_cons. cbn [List.length].
      rewrite Hd1 in Ht1. cbn [zeros_like zeros dim1] in Ht1. lia.
Qed.

End Assembly.

Section AssembledEpisode.

Variable self : InterruptionSwapRecall.

Hypothesis batch_pos : (1 <= batch_size self)%Z.
Hypothesis data_pos : (1 <= data_bits self)%Z.

Lemma block_total_time (l : list ndarray) :
  Forall (nonempty_block self) l -> List.length l <= total_time l.
Proof.
  induction 1 as [|a l Ha _ IH]; [apply Nat.le_refl |].
  destruct Ha as (_ & _ & Ha). rewrite total_time_cons. cbn [List.length]. lia.
Qed.

(** From blocks of the configured shape, [assemble] returns encoded
    inputs of the stated total time and the target [concat(y + x)]. *)
Lemma assemble_encoded (x y : list ndarray) :
  1 <= List.length x -> List.length x = List.length y ->
  Forall (nonempty_block self) x -> Forall (nonempty_block self) y ->
  returns (assemble self x y)
          (fun it =>
             encoded self (fst it) /\
             dim1 (fst it)
             = 2 * total_time x + 2 * total_time y + List.length x + 1 /\
             concatenate (y ++ x) = Ok (snd it) /\
             dim0 (snd it) = Z.to_nat (batch_size self) /\
             dim1 (snd it) = total_time y + total_time x /\
             dim2 (snd it) = Z.to_nat (data_bits self)).
Proof.
  intros Hn Hlen Hx Hy. unfold assemble.
  assert (Hyx : concatenate (y ++ x)
                = Ok (NDArray (Z.to_nat (batch_size self)) (total_time (y ++ x))
                              (Z.to_nat (data_bits self)) (concat_item (y ++ x)))).
  { apply concatenate_shape.
    - destruct x; [simpl in Hn; lia |]. destruct y; discriminate.
    - apply Forall_app. split;
        (eapply Forall_impl; [|eassumption]); intros a (H0 & H2 & _); auto. }
  rewrite Hyx. cbn [bind].
  unfold np_zeros.
  destruct (Z.ltb_spec (batch_size self) 0); [lia |].
  destruct (Z.ltb_spec (data_bits self) 0); [lia |].
  cbn [orb Z.ltb Z.compare bind].
  set (inter_seq := add_ctrl _ ctrl_inter pos).
  set (inter_xy := add_ctrl _ ctrl_xy pos).
  assert (Hseq : encoded self inter_seq /\ dim1 inter_seq = 1).
  { apply add_ctrl_encoded; try reflexivity.
    cbn. intros (? & ? & ?). discriminate. }
  assert (Hxy : encoded self inter_xy /\ dim1 inter_xy = 1).
  { apply add_ctrl_encoded; try reflexivity.
    cbn. intros (? & ? & ?). discriminate. }
  destruct Hseq as [Hseq Hseq1]. destruct Hxy as [Hxy Hxy1].
  pose proof (data_1_encoded self inter_xy Hxy Hxy1 x y Hlen Hx Hy) as H1.
  unfold aug_x, aug_y in H1.
  destruct (collect (interleave self inter_xy) _) as [data_1|e]; [|contradiction].
  cbn [returns bind] in H1 |- *. destruct H1 as [H1 H1t].
  pose proof (data_2_encoded self x Hx) as H2. unfold aug_x in H2.
  destruct (collect _ _) as [data_2|e]; [|contradiction].
  cbn [returns bind] in H2 |- *. destruct H2 as [H2 H2t].
  assert (Hall : Forall (encoded self) (data_1 ++ [inter_seq] ++ data_2)).
  { apply Forall_app. split; [assumption |].
    apply Forall_app. split; [|assumption].
    constructor; [assumption | apply Forall_nil]. }
  pose proof (concatenate_encoded self (data_1 ++ [inter_seq] ++ data_2)) as Hc.
  destruct (concatenate (data_1 ++ [inter_seq] ++ data_2)) as [inputs|e].
  - cbn [returns bind fst snd dim0 dim1 dim2] in Hc |- *.
    destruct Hc as [Henc Htime]; [|assumption|].
    { destruct data_1; discriminate. }
    split; [exact Henc |]. split.
    { rewrite Htime, !total_time_app, total_time_cons, Hseq1.
      unfold total_time at 2. cbn [map list_sum fold_right]. lia. }
    split; [reflexivity |]. split; [reflexivity |].
    split; [apply total_time_app | reflexivity].
  - cbn [returns] in Hc. exfalso. apply Hc; [|assumption].
    destruct data_1; discriminate.
Qed.

End AssembledEpisode.

Section ValidConfiguration.

Variable p : params.
Hypothesis Hvalid : valid p.

Lemma init_valid : init p = Ok (problem_of p).
Proof.
  destruct Hvalid as (_ & Hcb & Hdb & _). unfold init.
  destruct (Z.leb_spec 3 (p_control_bits p)); [|lia].
  destruct (Z.leb_spec 1 (p_data_bits p)); [|lia].
  reflexivity.
Qed.

(** On a valid configuration the draws and the assembly return. *)
Lemma sample_assemble (s : tape) (P : list ndarray -> list ndarray ->
                                      ndarray -> ndarray -> Prop) :
  (forall x y inputs target,
      1 <= List.length x -> List.length x = List.length y ->
      Forall (nonempty_block (problem_of p)) x -> Forall (nonempty_block (problem_of p)) y ->
      encoded (problem_of p) inputs ->
      dim1 inputs = 2 * total_time x + 2 * total_time y + List.length x + 1 ->
      concatenate (y ++ x) = Ok target ->
      dim0 target = Z.to_nat (p_batch_size p) ->
      dim1 target = total_time y + total_time x ->
      dim2 target = Z.to_nat (p_data_bits p) ->
      P x y inputs target) ->
  returns (sample (problem_of p) s)
          (fun r => returns (assemble (problem_of p) (fst (fst r)) (snd (fst r)))
                            (fun it => P (fst (fst r)) (snd (fst r))
                                         (fst it) (snd it))).
Proof.
  intros HP.
  destruct Hvalid as (Hb & Hcb & Hdb & Hlen & Hcnt & Hbias).
  pose proof (sample_drawn (problem_of p) Hb Hdb Hlen Hcnt Hbias s) as Hs.
  destruct (sample (problem_of p) s) as [[[x y] s']|e]; [|contradiction].
  cbn [returns fst snd] in Hs |- *.
  destruct Hs as (Hn & Hxy & Hx & Hy).
  assert (Hx' : Forall (nonempty_block (problem_of p)) x).
  { eapply Forall_impl; [|exact Hx]. intros a. apply drawn_block. apply Hlen. }
  assert (Hy' : Forall (nonempty_block (problem_of p)) y).
  { eapply Forall_impl; [|exact Hy]. intros a. apply drawn_block. apply Hlen. }
  pose proof (assemble_encoded (problem_of p) Hb Hdb x y Hn Hxy Hx' Hy') as Ha.
  destruct (assemble (problem_of p) x y) as [[inputs target]|e]; [|contradiction].
  cbn [returns fst snd] in Ha |- *.
  destruct Ha as (He & Ht & Hc & H0 & H1 & H2).
  apply HP; assumption.
Qed.

End ValidConfiguration.

Section EmptyMask.

Variable self : InterruptionSwapRecall.
Variable inputs : ndarray.

Hypothesis Hcb : (3 <= control_bits self)%Z.
Hypothesis Henc : encoded self inputs.

(** On encoded inputs the mask of the code selects no time-step. *)
Lemma encoded_mask_false (mask : bool2) :
  create_mask self inputs = Ok mask ->
  forall b t, t < dim1 inputs -> entry mask b t = false.
Proof.
  intros Hm b t Ht.
  destruct (create_mask_spec self inputs mask) as (_ & _ & Hiff);
    [lia | assumption |].
  destruct (entry mask b t) eqn:E; [|reflexivity].
  exfalso. destruct Henc as (_ & _ & Hno).
  apply (proj1 (Hno b t Ht)).
  rewrite Hiff in E. repeat split; apply E; lia.
Qed.

Lemma count_true_false (sel : nat -> bool) (n : nat) :
  (forall t, t < n -> sel t = false) -> count_true sel n = 0.
Proof.
  intros H. unfold count_true, positions.
  induction n as [|n IH]; [reflexivity |].
  rewrite seq_S, filter_app, length_app. cbn [filter Nat.add].
  rewrite (H n) by lia. rewrite IH by (intros; apply H; lia). reflexivity.
Qed.

End EmptyMask.

(** With the channel encoder as the spec describes it, the mask of the
    code selects no time-step of the assembled inputs, the rows of the
    target find no place, and [generate_batch] raises on every valid
    configuration. *)
Lemma valid_configuration_yields_no_episode (p : params) (s : tape) :
  valid p -> raises (run p s).
Proof.
  intros Hvalid. unfold run. rewrite (init_valid p Hvalid).
  pose proof (sample_assemble p Hvalid s
                (fun _ _ inputs target =>
                   raises (reconcile (problem_of p) inputs target))) as H.
  unfold generate_batch, bindM, lift.
  destruct (sample (problem_of p) s) as [[[x y] s1]|e]; [|exact I].
  cbn [returns fst snd] in H |- *.
  destruct (assemble (problem_of p) x y) as [[inputs target]|e]; [|exact I].
  cbn [returns bind fst snd] in H |- *.
  destruct (reconcile (problem_of p) inputs target) as [ep|e]; [|exact I].
  apply H. clear H.
  intros x' y' inputs' target' Hn Hlen Hx Hy Henc _ _ H0 H1 _.
  destruct Hvalid as (Hb & Hcb & _).
  unfold reconcile.
  destruct (create_mask (problem_of p) inputs') as [mask|e] eqn:Hm; [|exact I].
  cbn [bind].
  destruct (create_mask_spec (problem_of p) inputs' mask) as (Hr & _ & _);
    [cbn; lia | assumption |].
  unfold row0.
  destruct (Nat.ltb_spec 0 (rows mask)) as [_|Hr0];
    [|rewrite Hr in Hr0; destruct Henc as (E0 & _); rewrite E0 in Hr0;
      cbn [problem_of batch_size] in Hr0; lia].
  cbn [bind]. unfold setitem_time.
  cbn [zeros_like zeros bits_from setitem_time_bits dim0 dim1 dim2].
  rewrite (count_true_false (entry mask 0) (dim1 inputs'))
    by (intros t Ht;
        apply (encoded_mask_false (problem_of p) inputs' Hcb Henc mask Hm 0 t Ht)).
  pose proof (block_total_time (problem_of p) x' Hx).
  pose proof (block_total_time (problem_of p) y' Hy).
  assert (Hbr : broadcasts (dim1 target') 0 = false).
  { unfold broadcasts.
    destruct (Nat.eqb_spec (dim1 target') 0); [lia |].
    destruct (Nat.eqb_spec (dim1 target') 1); [lia | reflexivity]. }
  rewrite Hbr, andb_false_r. exact I.
Qed.

(* ================================================================== *)
(** * Further properties of [rotate] *)
(* ================================================================== *)

Section Shifts.

Lemma slice_bound_le (k : Z) (n : nat) : slice_bound k n <= n.
Proof.
  unfold slice_bound. destruct (Z.ltb_spec k 0); lia.
Qed.

(** The slicing and concatenation of [rotate], for every slice index:
    a circular shift to the left by the clamped index. *)
Lemma concatenate_slices_any (seq : ndarray) (k : Z) :
  returns (concatenate [time_from k seq; time_upto k seq])
          (fun out => same_array out (left_shift seq (slice_bound k (dim1 seq)))).
Proof.
  unfold concatenate. simpl forallb. rewrite !Nat.eqb_refl. cbn [andb returns].
  pose proof (slice_bound_le k (dim1 seq)) as Hs.
  set (s := slice_bound k (dim1 seq)) in *.
  unfold same_array, left_shift.
  cbn [dim0 dim1 dim2 item map list_sum fold_right time_from time_upto].
  fold s.
  split; [reflexivity | split; [lia | split; [reflexivity |]]].
  intros i t c _ Ht _. cbn [concat_item dim1 item time_from time_upto]. fold s.
  assert (HT : t < dim1 seq) by lia.
  destruct (Nat.ltb_spec t (dim1 seq - s)) as [Hlt|Hge].
  - rewrite Nat.mod_small by lia. f_equal. lia.
  - destruct (Nat.ltb_spec (t - (dim1 seq - s)) s); [|lia].
    f_equal.
    replace (t + s) with ((t - (dim1 seq - s)) + 1 * dim1 seq) by lia.
    rewrite Nat.Div0.mod_add. rewrite Nat.mod_small by lia. reflexivity.
Qed.

Lemma to_int_remainder_returns (x : number) (n : Z) :
  n <> 0%Z -> exists k, to_int (remainder (Np.round x) n) = Ok k.
Proof.
  intros Hn. destruct x as [z|q]; cbn [Np.round remainder].
  - eexists. reflexivity.
  - destruct (Z.eqb_spec n 0); [contradiction |]. eexists. reflexivity.
Qed.

Lemma same_array_trans (a b c : ndarray) :
  same_array a b -> same_array b c -> same_array a c.
Proof.
  intros (A0 & A1 & A2 & A) (B0 & B1 & B2 & B).
  repeat split; try congruence.
  intros i t k Hi Ht Hk. rewrite A by assumption. apply B; congruence.
Qed.

(** Two shifts to the left compose into the shift by the sum. *)
Lemma left_shift_left_shift (seq : ndarray) (s1 s2 : nat) :
  same_array (left_shift (left_shift seq s1) s2) (left_shift seq (s1 + s2)).
Proof.
  unfold same_array, left_shift. cbn [dim0 dim1 dim2 item].
  repeat split. intros i t c _ Ht _. f_equal.
  rewrite Nat.Div0.add_mod_idemp_l. f_equal. lia.
Qed.

Lemma left_shift_same (a b : ndarray) (s : nat) :
  same_array a b -> same_array (left_shift a s) (left_shift b s).
Proof.
  intros (H0 & H1 & H2 & H). unfold same_array, left_shift.
  cbn [dim0 dim1 dim2 item]. repeat split; try assumption.
  intros i t c Hi Ht Hc. rewrite H1. apply H; try assumption.
  rewrite <- H1. apply Nat.mod_upper_bound. lia.
Qed.

Lemma left_shift_mod (seq : ndarray) (s1 s2 : nat) :
  s1 mod dim1 seq = s2 mod dim1 seq ->
  same_array (left_shift seq s1) (left_shift seq s2).
Proof.
  intros E. unfold same_array, left_shift. cbn [dim0 dim1 dim2 item].
  repeat split. intros i t c _ Ht _. f_equal.
  rewrite (Nat.Div0.add_mod t s1), (Nat.Div0.add_mod t s2), E. reflexivity.
Qed.

Lemma left_shift_0 (seq : ndarray) : same_array (left_shift seq 0) seq.
Proof.
  unfold same_array, left_shift. cbn [dim0 dim1 dim2 item].
  repeat split. intros i t c _ Ht _.
  rewrite Nat.add_0_r, Nat.mod_small by assumption. reflexivity.
Qed.

Lemma to_nat_mod (x L : Z) :
  (0 < L)%Z -> Z.to_nat (x mod L) mod Z.to_nat L = Z.to_nat (x mod L).
Proof.
  intros HL. apply Nat.mod_small.
  pose proof (Z.mod_pos_bound x L HL). lia.
Qed.

Lemma to_nat_add_mod (x y L : Z) :
  (0 < L)%Z ->
  (Z.to_nat (x mod L) + Z.to_nat (y mod L)) mod Z.to_nat L
  = Z.to_nat ((x + y) mod L).
Proof.
  intros HL.
  pose proof (Z.mod_pos_bound x L HL). pose proof (Z.mod_pos_bound y L HL).
  apply Nat2Z.inj. rewrite Nat2Z.inj_mod, Nat2Z.inj_add, !Z2Nat.id by lia.
  rewrite Z2Nat.id by (pose proof (Z.mod_pos_bound (x + y) L HL); lia).
  symmetry. apply Z.add_mod. lia.
Qed.

(** [rotate] on a block whose time axis has the length passed, as a
    [left_shift]. *)
Lemma rotate_as_left_shift (seq : ndarray) (rotation : number) :
  1 <= dim1 seq ->
  returns (rotate seq rotation (Z.of_nat (dim1 seq)))
          (fun out =>
             same_array out
               (left_shift seq (Z.to_nat (offset rotation (Z.of_nat (dim1 seq)))))).
Proof.
  intros HL. rewrite rotate_unfold by lia.
  pose proof (offset_range rotation (Z.of_nat (dim1 seq))) as Ho.
  eapply returns_impl; [|apply concatenate_slices_any].
  intros out H. rewrite slice_bound_nonneg in H by lia.
  replace (Nat.min (Z.to_nat (offset rotation (Z.of_nat (dim1 seq)))) (dim1 seq))
    with (Z.to_nat (offset rotation (Z.of_nat (dim1 seq)))) in H by lia.
  exact H.
Qed.

End Shifts.

Section RoundingSymmetry.

Lemma Qfloor_unique (x : Q) (z : Z) :
  Qle (inject_Z z) x -> Qlt x (inject_Z (z + 1)) -> Qfloor x = z.
Proof.
  intros Hle Hlt.
  pose proof (Qfloor_le x) as H1. pose proof (Qlt_floor x) as H2.
  assert (A : (z < Qfloor x + 1)%Z).
  { rewrite Zlt_Qlt. eapply Qle_lt_trans; eassumption. }
  assert (B : (Qfloor x < z + 1)%Z).
  { rewrite Zlt_Qlt. eapply Qle_lt_trans; eassumption. }
  lia.
Qed.

Lemma even_opp_pred (f : Z) : Z.even (- f - 1) = negb (Z.even f).
Proof.
  rewrite Z.even_sub, Z.even_opp. cbn. destruct (Z.even f); reflexivity.
Qed.

(** Rounding halves to even commutes with negation. *)
Lemma round_half_even_opp (q : Q) :
  round_half_even (- q) = (- round_half_even q)%Z.
Proof.
  set (f := Qfloor q).
  pose proof (Qfloor_le q) as Hle. pose proof (Qlt_floor q) as Hlt.
  fold f in Hle, Hlt. rewrite inject_Z_plus in Hlt.
  destruct (Qeq_dec q (inject_Z f)) as [E|NE].
  - rewrite (round_half_even_comp q (inject_Z f) E), round_half_even_Z.
    rewrite (round_half_even_comp (- q) (inject_Z (- f))).
    + apply round_half_even_Z.
    + rewrite E, inject_Z_opp. reflexivity.
  - assert (Hf : Qlt (inject_Z f) q).
    { apply Qle_lteq in Hle. destruct Hle as [H|H]; [exact H |].
      exfalso. apply NE. symmetry. exact H. }
    assert (Hfl : Qfloor (- q) = (- f - 1)%Z).
    { apply Qfloor_unique.
      - unfold Z.sub. rewrite inject_Z_plus, !inject_Z_opp. lra.
      - replace (- f - 1 + 1)%Z with (- f)%Z by lia. rewrite inject_Z_opp. lra. }
    unfold round_half_even. fold f. rewrite Hfl.
    assert (Hi : Qeq (inject_Z (- f - 1)) (- inject_Z f - 1)).
    { unfold Z.sub. rewrite inject_Z_plus, !inject_Z_opp. reflexivity. }
    destruct (Qcompare_spec (q - inject_Z f) (1 # 2)) as [C1|C1|C1];
      destruct (Qcompare_spec (- q - inject_Z (- f - 1)) (1 # 2)) as [C2|C2|C2];
      rewrite Hi in C2; try lra.
    + rewrite even_opp_pred. destruct (Z.even f); cbn [negb]; lia.
    + lia.
    + lia.
Qed.

Lemma in_unit_range_neg (r : number) :
  in_unit_range (neg r) = in_unit_range r.
Proof.
  destruct r as [z|q]; cbn [neg in_unit_range].
  - destruct (Z.leb_spec (-1) (- z)), (Z.leb_spec (- z) 1),
      (Z.leb_spec (-1) z), (Z.leb_spec z 1); cbn; try reflexivity; lia.
  - apply eq_true_iff_eq. rewrite !andb_true_iff, !Qle_bool_iff.
    split; intros [A B]; split; lra.
Qed.

Lemma rounded_shift_neg (r : number) (L : Z) :
  rounded_shift (neg r) L = (- rounded_shift r L)%Z.
Proof.
  unfold rounded_shift. rewrite in_unit_range_neg.
  destruct (in_unit_range r); destruct r as [z|q];
    cbn [neg mul_int Np.round int_value]; rewrite ?Qfloor_Z.
  - lia.
  - rewrite <- round_half_even_opp. apply round_half_even_comp. ring.
  - reflexivity.
  - apply round_half_even_opp.
Qed.

End RoundingSymmetry.

Section OneItem.






End OneItem.




(** X1.  On a block whose time axis has the length passed ([L >= 1]),
    [rotate] returns a block of the same shape whose time-step [t] is
    time-step [(t + offset) mod L] of the argument, for every batch row
    and bit: a circular shift to the left by the offset. *)
Theorem rotate_shifts_left_by_offset (seq : ndarray) (rotation : number) :
  1 <= dim1 seq ->
  returns (rotate seq rotation (Z.of_nat (dim1 seq)))
          (fun out =>
             shape out = shape seq /\
             forall i t c,
               t < dim1 seq ->
               item out i t c
               = item seq i ((t + Z.to_nat (offset rotation (Z.of_nat (dim1 seq))))
                             mod dim1 seq) c).
Proof.
  intros HL.
  eapply returns_impl; [|apply rotate_left_shift; assumption].
  intros out (H0 & H1 & H2 & H). split; [|exact H].
  unfold shape. congruence.
Qed.

Lemma rotate_shifts_left_by_offset_witness :
  returns (rotate five_steps (PyFloat (2 # 5)) 5)
          (fun out =>
             shape out = shape five_steps /\
             forall i t c,
               t < 5 ->
               item out i t c
               = item five_steps i
                      ((t + Z.to_nat (offset (PyFloat (2 # 5)) 5)) mod 5) c).
Proof.
  apply (rotate_shifts_left_by_offset five_steps (PyFloat (2 # 5))).
  simpl. lia.
Defined.

(** X2.  Whatever the block and the rotation, and for every sequence
    length other than 0 (also one that is not the time length of the
    block, or is negative), [rotate] returns, and what it returns is the
    block shifted circularly along the time axis: the shape is kept and
    no time-step is lost or repeated. *)
Theorem rotate_keeps_shape (seq : ndarray) (rotation : number) (L : Z) :
  L <> 0%Z ->
  returns (rotate seq rotation L)
          (fun out =>
             exists s, s <= dim1 seq /\ same_array out (left_shift seq s)).
Proof.
  intros HL. unfold rotate.
  destruct (to_int_remainder_returns
              (if in_unit_range rotation then mul_int rotation L else rotation)
              L HL) as [k Hk].
  rewrite Hk. cbn [bind].
  eapply returns_impl; [|apply concatenate_slices_any].
  intros out H. exists (slice_bound k (dim1 seq)).
  split; [apply slice_bound_le | exact H].
Qed.

Lemma rotate_keeps_shape_witness :
  returns (rotate abc (PyInt 5) 7)
          (fun out => exists s, s <= 3 /\ same_array out (left_shift abc s)) /\
  returns (rotate abc (PyFloat (5 # 2)) (-2))
          (fun out => exists s, s <= 3 /\ same_array out (left_shift abc s)).
Proof.
  split.
  - apply (rotate_keeps_shape abc (PyInt 5) 7). lia.
  - apply (rotate_keeps_shape abc (PyFloat (5 # 2)) (-2)). lia.
Defined.

(** X3.  Rotating by a value and then by its negation gives the block
    back: on a block whose time axis has the length passed ([L >= 1]),
    [rotate(rotate(block, r, L), -r, L)] is the block, for every int or
    float [r], relative or absolute. *)
Theorem rotate_then_rotate_back (seq : ndarray) (r : number) :
  1 <= dim1 seq ->
  returns (rotate seq r (Z.of_nat (dim1 seq)))
          (fun out =>
             returns (rotate out (neg r) (Z.of_nat (dim1 seq)))
                     (fun back => same_array back seq)).
Proof.
  intros HL.
  set (L := Z.of_nat (dim1 seq)).
  eapply returns_impl; [|apply rotate_as_left_shift; assumption].
  fold L. intros out Hout.
  assert (H1 : dim1 out = dim1 seq) by apply Hout.
  pose proof (rotate_as_left_shift out (neg r)) as Hb.
  rewrite H1 in Hb. fold L in Hb.
  eapply returns_impl; [|apply Hb; assumption].
  intros back Hback.
  eapply same_array_trans; [exact Hback |].
  eapply same_array_trans; [apply left_shift_same; exact Hout |].
  eapply same_array_trans; [apply left_shift_left_shift |].
  eapply same_array_trans; [|apply left_shift_0].
  apply left_shift_mod.
  unfold offset. rewrite rounded_shift_neg.
  replace (dim1 seq) with (Z.to_nat L) by (unfold L; lia).
  rewrite to_nat_add_mod by (unfold L; lia).
  rewrite Z.add_opp_diag_r. rewrite Z.mod_0_l by (unfold L; lia).
  rewrite Nat.Div0.mod_0_l. reflexivity.
Qed.

Lemma rotate_then_rotate_back_witness :
  returns (rotate five_steps (PyFloat (1 # 2)) 5)
          (fun out =>
             returns (rotate out (neg (PyFloat (1 # 2))) 5)
                     (fun back => same_array back five_steps)).
Proof.
  apply (rotate_then_rotate_back five_steps (PyFloat (1 # 2))).
  simpl. lia.
Defined.

(** X4.  An integer rotation by a multiple of the length (0 included)
    leaves the block as it is, on a block whose time axis has the length
    passed ([L >= 1]). *)
Theorem rotate_by_multiple_of_length (seq : ndarray) (k : Z) :
  1 <= dim1 seq ->
  returns (rotate seq (PyInt (k * Z.of_nat (dim1 seq))) (Z.of_nat (dim1 seq)))
          (fun out => same_array out seq).
Proof.
  intros HL.
  eapply returns_impl; [|apply rotate_as_left_shift; assumption].
  intros out Hout.
  eapply same_array_trans; [exact Hout |].
  eapply same_array_trans; [|apply left_shift_0].
  apply left_shift_mod.
  assert (E : offset (PyInt (k * Z.of_nat (dim1 seq))) (Z.of_nat (dim1 seq)) = 0%Z).
  { unfold offset, rounded_shift.
    destruct (in_unit_range _); cbn [mul_int Np.round int_value];
      apply Z.mod_mul; lia. }
  rewrite E. reflexivity.
Qed.

Lemma rotate_by_multiple_of_length_witness :
  returns (rotate abc (PyInt (-2 * 3)) 3) (fun out => same_array out abc) /\
  returns (rotate abc (PyInt (0 * 3)) 3) (fun out => same_array out abc).
Proof.
  split.
  - apply (rotate_by_multiple_of_length abc (-2)). simpl. lia.
  - apply (rotate_by_multiple_of_length abc 0). simpl. lia.
Defined.

(** X5.  Absolute integer rotations add up: on a block whose time axis
    has the length passed ([L >= 1]), rotating by [a] and then by [c]
    gives the same block as rotating once by [a + c], when [a], [c] and
    [a + c] all lie outside [-1, 1]. *)
Theorem rotate_absolute_rotations_add (seq : ndarray) (a c : Z) :
  1 <= dim1 seq ->
  in_unit_range (PyInt a) = false ->
  in_unit_range (PyInt c) = false ->
  in_unit_range (PyInt (a + c)) = false ->
  returns (rotate seq (PyInt a) (Z.of_nat (dim1 seq)))
          (fun out =>
             returns (rotate out (PyInt c) (Z.of_nat (dim1 seq)))
                     (fun twice =>
                        returns (rotate seq (PyInt (a + c)) (Z.of_nat (dim1 seq)))
                                (fun once => same_array twice once))).
Proof.
  intros HL Ha Hc Hac.
  set (L := Z.of_nat (dim1 seq)).
  eapply returns_impl; [|apply rotate_as_left_shift; assumption].
  fold L. intros out Hout.
  assert (H1 : dim1 out = dim1 seq) by apply Hout.
  pose proof (rotate_as_left_shift out (PyInt c)) as Hb.
  rewrite H1 in Hb. fold L in Hb.
  eapply returns_impl; [|apply Hb; assumption].
  intros twice Htwice.
  eapply returns_impl; [|apply rotate_as_left_shift; assumption].
  fold L. intros once Honce.
  eapply same_array_trans; [exact Htwice |].
  eapply same_array_trans; [apply left_shift_same; exact Hout |].
  eapply same_array_trans; [apply left_shift_left_shift |].
  apply same_array_sym.
  eapply same_array_trans; [exact Honce |].
  apply left_shift_mod.
  unfold offset, rounded_shift. rewrite Ha, Hc, Hac.
  cbn [Np.round int_value].
  replace (dim1 seq) with (Z.to_nat L) by (unfold L; lia).
  rewrite to_nat_add_mod by (unfold L; lia).
  apply to_nat_mod. unfold L. lia.
Qed.

Lemma rotate_absolute_rotations_add_witness :
  returns (rotate five_steps (PyInt 2) 5)
          (fun out =>
             returns (rotate out (PyInt 4) 5)
                     (fun twice =>
                        returns (rotate five_steps (PyInt (2 + 4)) 5)
                                (fun once => same_array twice once))).
Proof.
  apply (rotate_absolute_rotations_add five_steps 2 4).
  - simpl. lia.
  - reflexivity.
  - reflexivity.
  - reflexivity.
Defined.

Section HalfTurn.

Lemma half_turn_offset (m : nat) :
  1 <= m ->
  offset (PyFloat (1 # 2)) (Z.of_nat (2 * m)) = Z.of_nat m.
Proof.
  intros Hm. unfold offset, rounded_shift.
  replace (in_unit_range (PyFloat (1 # 2))) with true by reflexivity.
  cbn [mul_int Np.round int_value]. rewrite Qfloor_Z.
  rewrite (round_half_even_comp _ (inject_Z (Z.of_nat m))).
  - rewrite round_half_even_Z. apply Z.mod_small. lia.
  - unfold Qeq, Qmult, inject_Z. cbn [Qnum Qden]. lia.
Qed.

End HalfTurn.

(** X6.  Half a turn.  With the rotation 0.5 on a block of even length
    (passed as the sequence length), the shift of [rotate] to the left
    is also the shift to the right by the same offset, half the length,
    and rotating twice gives the block back. *)
Theorem rotate_half_turn (seq : ndarray) (m : nat) :
  1 <= m ->
  dim1 seq = 2 * m ->
  returns (rotate seq (PyFloat (1 # 2)) (Z.of_nat (dim1 seq)))
          (fun out =>
             same_array out
               (right_shift seq (offset (PyFloat (1 # 2)) (Z.of_nat (dim1 seq)))) /\
             returns (rotate out (PyFloat (1 # 2)) (Z.of_nat (dim1 seq)))
                     (fun back => same_array back seq)).
Proof.
  intros Hm HL.
  eapply returns_impl; [|apply rotate_as_left_shift; lia].
  intros out Hout.
  assert (H1 : dim1 out = dim1 seq) by apply Hout.
  rewrite HL in *. rewrite half_turn_offset in * by assumption.
  rewrite Nat2Z.id in Hout.
  split.
  - eapply same_array_trans; [exact Hout |].
    unfold same_array, left_shift, right_shift. cbn [dim0 dim1 dim2 item].
    repeat split. intros i t c _ Ht _. f_equal. rewrite HL in *.
    destruct (Nat.lt_ge_cases t m) as [Hlt|Hge].
    + rewrite Nat.mod_small by lia.
      rewrite <- (Z_mod_plus_full _ 1 (Z.of_nat (2 * m))).
      rewrite Z.mod_small by lia. lia.
    + replace (t + m) with ((t - m) + 1 * (2 * m)) by lia.
      rewrite Nat.Div0.mod_add, Nat.mod_small by lia.
      rewrite Z.mod_small by lia. lia.
  - pose proof (rotate_as_left_shift out (PyFloat (1 # 2))) as Hb.
    rewrite H1 in Hb. rewrite half_turn_offset in Hb by assumption.
    rewrite Nat2Z.id in Hb.
    eapply returns_impl; [|apply Hb; lia].
    intros back Hback.
    eapply same_array_trans; [exact Hback |].
    eapply same_array_trans; [apply left_shift_same; exact Hout |].
    eapply same_array_trans; [apply left_shift_left_shift |].
    eapply same_array_trans; [|apply left_shift_0].
    apply left_shift_mod. rewrite HL.
    replace (m + m) with (0 + 1 * (2 * m)) by lia.
    rewrite Nat.Div0.mod_add. reflexivity.
Qed.

Lemma rotate_half_turn_witness :
  returns (rotate four_steps (PyFloat (1 # 2)) 4)
          (fun out =>
             same_array out (right_shift four_steps (offset (PyFloat (1 # 2)) 4)) /\
             returns (rotate out (PyFloat (1 # 2)) 4)
                     (fun back => same_array back four_steps)).
Proof.
  apply (rotate_half_turn four_steps 2).
  - lia.
  - reflexivity.
Defined.

(* ================================================================== *)
(** * Further properties of the draws *)
(* ================================================================== *)

Section Draws.

Variable self : InterruptionSwapRecall.

Lemma bernoulli_bit (p : Q) (r : nat) :
  bernoulli p r = 0%Z \/ bernoulli p r = 1%Z.
Proof.
  unfold bernoulli.
  destruct (Qeq_bool p 0); [left; reflexivity |].
  destruct (Qeq_bool p 1); [right; reflexivity |].
  pose proof (Nat.mod_upper_bound r 2). lia.
Qed.

Lemma binomial1_inv (p : Q) (n0 n1 n2 : Z) (s s' : tape) (a : ndarray) :
  binomial1 p n0 n1 n2 s = Ok (a, s') ->
  (0 <= n1)%Z /\
  shape a = (Z.to_nat n0, Z.to_nat n1, Z.to_nat n2) /\ binary a.
Proof.
  unfold binomial1. intros H.
  destruct (Qle_bool 0 p && Qle_bool p 1); [|discriminate].
  destruct (Z.ltb_spec n0 0); [discriminate |].
  destruct (Z.ltb_spec n1 0); [discriminate |].
  destruct (Z.ltb_spec n2 0); [discriminate |].
  cbn [orb] in H. injection H as <- _.
  split; [assumption | split; [reflexivity |]].
  intros i t c. cbn [item]. apply bernoulli_bit.
Qed.

Lemma mapM_binomial1_inv (l : list Z) :
  forall s s' arrs,
    mapM (fun n => binomial1 (bias self) (batch_size self) n (data_bits self)) l s
    = Ok (arrs, s') ->
    Forall2 (fun n a =>
               (0 <= n)%Z /\
               shape a = (Z.to_nat (batch_size self), Z.to_nat n,
                          Z.to_nat (data_bits self)) /\
               binary a) l arrs.
Proof.
  induction l as [|n l IH]; intros s s' arrs H.
  - cbn in H. injection H as <- _. constructor.
  - cbn [mapM] in H. unfold bindM at 1 in H.
    destruct (binomial1 _ _ n _ s) as [[a s1]|e] eqn:Ha; [|discriminate].
    unfold bindM at 1 in H.
    destruct (mapM _ l s1) as [[bs s2]|e] eqn:Hl; [|discriminate].
    unfold ret in H. injection H as <- _.
    constructor; [eapply binomial1_inv; eassumption | eapply IH; eassumption].
Qed.

Lemma randint_size_inv (low high size : Z) (s s' : tape) (l : list Z) :
  randint_size low high size s = Ok (l, s') ->
  (0 <= size)%Z /\ List.length l = Z.to_nat size /\
  Forall (fun k => (low <= k < high)%Z) l.
Proof.
  unfold randint_size. intros H.
  destruct (Z.ltb_spec low high) as [Hlh|]; [|discriminate].
  destruct (Z.ltb_spec size 0); [discriminate |].
  injection H as <- _.
  split; [assumption | split].
  - rewrite length_map, length_seq. reflexivity.
  - apply Forall_forall. intros k Hk. apply in_map_iff in Hk.
    destruct Hk as (i & <- & _). unfold in_range.
    pose proof (Z.mod_pos_bound (Z.of_nat (s i)) (high - low)). lia.
Qed.

Lemma drawn_of_lengths (l : list Z) (arrs : list ndarray) :
  Forall (fun k => (min_sequence_length self <= k
                    < max_sequence_length self + 1)%Z) l ->
  Forall2 (fun n a =>
             (0 <= n)%Z /\
             shape a = (Z.to_nat (batch_size self), Z.to_nat n,
                        Z.to_nat (data_bits self)) /\
             binary a) l arrs ->
  List.length arrs = List.length l /\
  Forall (fun a => drawn self a /\ binary a) arrs.
Proof.
  intros Hl H. induction H as [|n a l arrs (Hn & Hs & Hb) _ IH].
  - split; [reflexivity | constructor].
  - inversion Hl as [|? ? Hn' Hl']; subst.
    destruct (IH Hl') as [Hlen Hall].
    split; [cbn; lia |].
    constructor; [|assumption].
    unfold shape in Hs. injection Hs as H0 H1 H2.
    split; [|assumption].
    unfold drawn. rewrite H0, H1, H2. repeat split; lia.
Qed.

End Draws.

(** X7.  Whenever the draws of [generate_batch] return (lines 79-88),
    there are as many sub-sequences [y] as [x], their number lies between
    [num_subseq_min] and [num_subseq_max], and every sub-sequence is a
    block of bits of shape [batch_size, length, data_bits] with a length
    between [min_sequence_length] and [max_sequence_length]. *)
Theorem sample_draws_blocks
        (self : InterruptionSwapRecall) (s s' : tape) (x y : list ndarray) :
  sample self s = Ok (x, y, s') ->
  (num_subseq_min self <= Z.of_nat (List.length x) <= num_subseq_max self)%Z /\
  List.length y = List.length x /\
  Forall (fun a => drawn self a /\ binary a) x /\
  Forall (fun a => drawn self a /\ binary a) y.
Proof.
  unfold sample. intros H.
  unfold bindM at 1 in H. unfold randint in H.
  destruct (Z.ltb_spec (num_subseq_min self) (num_subseq_max self + 1))
    as [Hcnt|]; [|discriminate].
  set (n := in_range _ _ _) in H.
  assert (Hn : (num_subseq_min self <= n < num_subseq_max self + 1)%Z).
  { unfold n, in_range.
    pose proof (Z.mod_pos_bound (Z.of_nat (s 0))
                  (num_subseq_max self + 1 - num_subseq_min self)). lia. }
  unfold bindM at 1 in H.
  destruct (randint_size _ _ n (advance 1 s)) as [[la s1]|e] eqn:Ha;
    [|discriminate].
  apply randint_size_inv in Ha. destruct Ha as (Hn0 & Hla & Hra).
  unfold bindM at 1 in H.
  destruct (randint_size _ _ n s1) as [[lb s2]|e] eqn:Hb; [|discriminate].
  apply randint_size_inv in Hb. destruct Hb as (_ & Hlb & Hrb).
  unfold bindM at 1 in H.
  destruct (mapM _ la s2) as [[x' s3]|e] eqn:Hx; [|discriminate].
  apply mapM_binomial1_inv in Hx.
  unfold bindM at 1 in H.
  destruct (mapM _ lb s3) as [[y' s4]|e] eqn:Hy; [|discriminate].
  apply mapM_binomial1_inv in Hy.
  unfold ret in H. injection H as <- <- _.
  destruct (drawn_of_lengths self la x' Hra Hx) as [Hxl Hxd].
  destruct (drawn_of_lengths self lb y' Hrb Hy) as [Hyl Hyd].
  repeat split; try assumption; lia.
Qed.

Lemma sample_draws_blocks_witness :
  (1 <= Z.of_nat (List.length (fst (fst example_draw))) <= 4)%Z /\
  List.length (snd (fst example_draw)) = List.length (fst (fst example_draw)) /\
  Forall (fun a => drawn (problem_of example_params) a /\ binary a)
         (fst (fst example_draw)) /\
  Forall (fun a => drawn (problem_of example_params) a /\ binary a)
         (snd (fst example_draw)).
Proof.
  apply (sample_draws_blocks (problem_of example_params) counting_tape
           (snd example_draw) (fst (fst example_draw)) (snd (fst example_draw))).
  reflexivity.
Defined.

(* ================================================================== *)
(** * Further properties of the mask and of the reconciler *)
(* ================================================================== *)

Section MaskErrors.

Variable self : InterruptionSwapRecall.

Lemma mask_loop_raises (mask_all : bool3) (range : list nat) :
  forall mask e,
    mask_loop mask_all range mask = Raise e -> exists msg, e = IndexError msg.
Proof.
  induction range as [|i r IH]; intros mask e H.
  - discriminate.
  - cbn [mask_loop] in H. unfold last_axis in H.
    destruct (i <? bdim2 mask_all).
    + cbn [bind] in H. eapply IH. eassumption.
    + cbn [bind] in H. injection H as <-. eauto.
Qed.

Lemma create_mask_raises (inputs : ndarray) (e : exn) :
  create_mask self inputs = Raise e -> exists msg, e = IndexError msg.
Proof.
  unfold create_mask. intros H. unfold last_axis in H at 1.
  destruct (0 <? bdim2 _).
  - cbn [bind] in H. eapply mask_loop_raises. eassumption.
  - cbn [bind] in H. injection H as <-. eauto.
Qed.

(** When [create_mask] returns, the control slice fits in the tensor. *)
Lemma create_mask_fits (inputs : ndarray) (mask : bool2) :
  (1 <= control_bits self)%Z ->
  create_mask self inputs = Ok mask ->
  (control_bits self <= Z.of_nat (dim2 inputs))%Z.
Proof.
  intros Hcb H. unfold create_mask in H.
  set (mask_all := eq_scalar (bits_upto (control_bits self) inputs) 1) in *.
  unfold last_axis in H at 1.
  destruct (Nat.ltb_spec 0 (bdim2 mask_all)) as [H0|H0]; [|discriminate].
  cbn [bind] in H. apply mask_loop_spec in H. destruct H as (Hr & _).
  specialize (Hr (Z.to_nat (control_bits self) - 1)).
  assert (Hin : In (Z.to_nat (control_bits self) - 1)
                   (seq 0 (Z.to_nat (control_bits self)))).
  { apply in_seq. lia. }
  specialize (Hr Hin).
  unfold mask_all in Hr. cbn [eq_scalar bdim2 bits_upto dim2] in Hr.
  rewrite slice_bound_nonneg in Hr by lia. lia.
Qed.

End MaskErrors.

(** X8.  When the tensor has fewer channels than [control_bits],
    [create_mask] raises [IndexError]: the slice [0:control_bits] is
    clipped to the tensor and the loop over [range(control_bits)] runs
    past it. *)
Theorem create_mask_index_error
        (self : InterruptionSwapRecall) (inputs : ndarray) :
  (1 <= control_bits self)%Z ->
  (Z.of_nat (dim2 inputs) < control_bits self)%Z ->
  exists msg, create_mask self inputs = Raise (IndexError msg).
Proof.
  intros Hcb Hw.
  destruct (create_mask self inputs) as [mask|e] eqn:H.
  - apply create_mask_fits in H; [lia | assumption].
  - destruct (create_mask_raises self inputs e H) as [msg ->]. eauto.
Qed.

Lemma create_mask_index_error_witness :
  exists msg, create_mask small_problem narrow_input = Raise (IndexError msg).
Proof.
  apply (create_mask_index_error small_problem narrow_input).
  - simpl. lia.
  - simpl. lia.
Defined.

(** X9.  The mask cannot be recomputed from the inputs an episode
    carries: after the reset of the control channel, [create_mask] on
    the returned inputs selects [(b, t)] only if the returned mask does
    and [mask[0]] does not select [t]; in particular it selects no
    time-step of batch row 0. *)
Theorem mask_not_recoverable_from_inputs
        (self : InterruptionSwapRecall)
        (inputs target inputs' twd : ndarray) (mask : bool2) :
  (1 <= control_bits self)%Z ->
  reconcile self inputs target = Ok (inputs', twd, mask) ->
  returns (create_mask self inputs')
          (fun again =>
             (forall b t, entry again b t
                          = entry mask b t && negb (entry mask 0 t)) /\
             forall t, entry again 0 t = false).
Proof.
  intros Hcb H.
  apply reconcile_inv in H. destruct H as (Hm & _ & -> & _).
  pose proof (create_mask_fits self inputs mask Hcb Hm) as Hfit.
  set (inputs' := setitem_time_bits inputs (entry mask 0) (control_bits self) 0).
  destruct (create_mask_total self inputs') as [again Ha].
  { unfold inputs'. cbn [setitem_time_bits dim2]. lia. }
  rewrite Ha. cbn [returns].
  destruct (create_mask_spec self inputs mask Hcb Hm) as (_ & _ & Hiff).
  destruct (create_mask_spec self inputs' again Hcb Ha) as (_ & _ & Hiff').
  assert (Hall : forall b t,
             entry again b t = entry mask b t && negb (entry mask 0 t)).
  { intros b t. apply eq_true_iff_eq.
    rewrite andb_true_iff, negb_true_iff, Hiff', Hiff.
    unfold inputs'. cbn [setitem_time_bits item].
    rewrite slice_bound_nonneg by lia.
    destruct (entry mask 0 t) eqn:Hsel; cbn [andb].
    - split.
      + intros Hone. exfalso.
        specialize (Hone 0).
        destruct (Nat.ltb_spec 0 (Nat.min (Z.to_nat (control_bits self))
                                          (dim2 inputs))); [|lia].
        assert (0 < Z.to_nat (control_bits self)) by lia.
        specialize (Hone H0). discriminate.
      + intros [_ Hf]. discriminate.
    - split.
      + intros Hone. split; [exact Hone | reflexivity].
      + intros [Hone _]. exact Hone. }
  split; [exact Hall |].
  intros t. rewrite Hall. destruct (entry mask 0 t); reflexivity.
Qed.

Lemma mask_not_recoverable_from_inputs_witness :
  returns (create_mask small_problem (fst (fst marked_episode)))
          (fun again =>
             (forall b t, entry again b t
                          = entry (snd marked_episode) b t
                            && negb (entry (snd marked_episode) 0 t)) /\
             forall t, entry again 0 t = false).
Proof.
  apply (mask_not_recoverable_from_inputs small_problem marked_input two_rows
           (fst (fst marked_episode)) (snd (fst marked_episode))
           (snd marked_episode)).
  - simpl. lia.
  - reflexivity.
Defined.

(** X10.  On inputs without batch element the reconciler raises
    [IndexError]: the mask has no row 0 to select the time-steps with. *)
Theorem reconcile_needs_a_batch_element
        (self : InterruptionSwapRecall) (inputs target : ndarray) :
  (1 <= control_bits self <= Z.of_nat (dim2 inputs))%Z ->
  dim0 inputs = 0 ->
  exists msg, reconcile self inputs target = Raise (IndexError msg).
Proof.
  intros Hcb HB. unfold reconcile.
  destruct (create_mask_total self inputs Hcb) as [mask Hm].
  rewrite Hm. cbn [bind].
  destruct (create_mask_spec self inputs mask) as (Hr & _ & _);
    [lia | assumption |].
  unfold row0. rewrite Hr, HB. cbn. eauto.
Qed.

Lemma reconcile_needs_a_batch_element_witness :
  exists msg, reconcile small_problem no_batch two_rows = Raise (IndexError msg).
Proof.
  apply (reconcile_needs_a_batch_element small_problem no_batch two_rows).
  - simpl. lia.
  - reflexivity.
Defined.

(** X11.  The reconciler raises [RuntimeError] when the target has
    neither one row nor as many rows as [mask[0]] selects time-steps:
    the rows of the target are never truncated nor padded. *)
Theorem reconcile_rejects_row_mismatch
        (self : InterruptionSwapRecall) (inputs target : ndarray) (mask : bool2) :
  (1 <= control_bits self)%Z ->
  1 <= dim0 inputs ->
  create_mask self inputs = Ok mask ->
  dim1 target <> count_true (entry mask 0) (dim1 inputs) ->
  dim1 target <> 1 ->
  exists msg, reconcile self inputs target = Raise (RuntimeError msg).
Proof.
  intros Hcb HB Hm Hcount Hone. unfold reconcile.
  rewrite Hm. cbn [bind].
  destruct (create_mask_spec self inputs mask Hcb Hm) as (Hr & _ & _).
  unfold row0.
  destruct (Nat.ltb_spec 0 (rows mask)) as [_|]; [|lia].
  cbn [bind]. unfold setitem_time.
  cbn [zeros_like zeros bits_from setitem_time_bits dim0 dim1 dim2].
  assert (Hbr : broadcasts (dim1 target)
                           (count_true (entry mask 0) (dim1 inputs)) = false).
  { unfold broadcasts.
    destruct (Nat.eqb_spec (dim1 target)
                           (count_true (entry mask 0) (dim1 inputs))); [lia |].
    destruct (Nat.eqb_spec (dim1 target) 1); [lia | reflexivity]. }
  rewrite Hbr, andb_false_r. cbn. eauto.
Qed.

Lemma reconcile_rejects_row_mismatch_witness :
  exists msg,
    reconcile small_problem marked_input three_rows = Raise (RuntimeError msg).
Proof.
  apply (reconcile_rejects_row_mismatch small_problem marked_input three_rows
           (snd marked_episode)).
  - simpl. lia.
  - simpl. lia.
  - reflexivity.
  - vm_compute. lia.
  - simpl. lia.
Defined.

(** X12.  Shapes of an episode.  Whenever the reconciler returns, the
    batch is not empty and the control slice fits; the inputs keep the
    shape [batch, time, width] of the raw inputs, the targets have the
    shape [batch, time, width - control_bits] and the mask the shape
    [batch, time]. *)
Theorem episode_shapes
        (self : InterruptionSwapRecall)
        (inputs target inputs' twd : ndarray) (mask : bool2) :
  (1 <= control_bits self)%Z ->
  reconcile self inputs target = Ok (inputs', twd, mask) ->
  1 <= dim0 inputs /\
  (control_bits self <= Z.of_nat (dim2 inputs))%Z /\
  shape inputs' = shape inputs /\
  shape twd = (dim0 inputs, dim1 inputs,
               dim2 inputs - Z.to_nat (control_bits self)) /\
  rows mask = dim0 inputs /\ cols mask = dim1 inputs.
Proof.
  intros Hcb H.
  apply reconcile_inv in H. destruct H as (Hm & Hrow & -> & Hs).
  apply setitem_time_inv in Hs.
  destruct Hs as (_ & _ & _ & E0 & E1 & E2 & _).
  cbn [zeros_like zeros bits_from setitem_time_bits dim0 dim1 dim2] in *.
  rewrite slice_bound_nonneg in E2 by lia.
  pose proof (create_mask_fits self inputs mask Hcb Hm) as Hfit.
  destruct (create_mask_spec self inputs mask Hcb Hm) as (Hr & Hc & _).
  split; [lia | split; [exact Hfit | split; [reflexivity | split]]].
  - unfold shape. rewrite E0, E1, E2. f_equal. lia.
  - split; assumption.
Qed.

Lemma episode_shapes_witness :
  1 <= 1 /\
  (3 <= 4)%Z /\
  shape (fst (fst marked_episode)) = (1, 3, 4) /\
  shape (snd (fst marked_episode)) = (1, 3, 4 - 3) /\
  rows (snd marked_episode) = 1 /\ cols (snd marked_episode) = 3.
Proof.
  apply (episode_shapes small_problem marked_input two_rows
           (fst (fst marked_episode)) (snd (fst marked_episode))
           (snd marked_episode)).
  - simpl. lia.
  - reflexivity.
Defined.

(** X13.  The mask reads the control channel only: two raw inputs that
    agree on their [control_bits] leading channels get the same mask,
    whatever their other channels hold. *)
Theorem create_mask_reads_control_only
        (self : InterruptionSwapRecall) (a b : ndarray) (ma mb : bool2) :
  (1 <= control_bits self)%Z ->
  create_mask self a = Ok ma ->
  create_mask self b = Ok mb ->
  (forall i t c, c < Z.to_nat (control_bits self) ->
                 item a i t c = item b i t c) ->
  forall i t, entry ma i t = entry mb i t.
Proof.
  intros Hcb Ha Hb Hagree i t.
  destruct (create_mask_spec self a ma Hcb Ha) as (_ & _ & Hia).
  destruct (create_mask_spec self b mb Hcb Hb) as (_ & _ & Hib).
  apply eq_true_iff_eq. rewrite Hia, Hib.
  split; intros Hone c Hc.
  - rewrite <- Hagree by assumption. apply Hone. assumption.
  - rewrite Hagree by assumption. apply Hone. assumption.
Qed.

Lemma create_mask_reads_control_only_witness :
  entry (snd marked_episode) 0 2
  = entry (value_or (Bool2 0 0 (fun _ _ => false))
                    (create_mask small_problem marked_input')) 0 2.
Proof.
  apply (create_mask_reads_control_only small_problem marked_input marked_input').
  - simpl. lia.
  - reflexivity.
  - reflexivity.
  - intros i t c Hc. simpl in Hc.
    destruct i as [|i]; [|destruct c as [|[|[|c]]]; try lia;
                           destruct t as [|[|[|t]]]; reflexivity].
    destruct t as [|[|[|t]]]; destruct c as [|[|[|c]]]; try lia; reflexivity.
Defined.

(* ================================================================== *)
(** * [generate_batch] over any channel encoder *)
(* ================================================================== *)

Section Comprehensions.

Lemma comprehension_inv {A B : Type} (f : A -> result B) (l : list A) :
  forall l', comprehension f l = Ok l' -> Forall2 (fun a b => f a = Ok b) l l'.
Proof.
  induction l as [|a r IH]; intros l' H; simpl in H.
  - injection H as <-. constructor.
  - destruct (f a) as [b|e] eqn:E; [|discriminate]. cbn [bind] in H.
    destruct (comprehension f r) as [rest|e]; [|discriminate]. cbn [bind] in H.
    injection H as <-. constructor; auto.
Qed.

Lemma comprehension_forall {A B : Type} (P : B -> Prop) (f : A -> result B)
      (l : list A) (l' : list B) :
  comprehension f l = Ok l' ->
  (forall a b, f a = Ok b -> P b) ->
  Forall P l'.
Proof.
  intros H HP. apply comprehension_inv in H.
  induction H as [|a b l l' Hab _ IH]; constructor; eauto.
Qed.

Lemma comprehension_ok {A B : Type} (g : A -> B) (l : list A) :
  comprehension (fun a => Ok (g a)) l = Ok (map g l).
Proof.
  induction l as [|a r IH]; [reflexivity |].
  cbn [comprehension bind map]. rewrite IH. reflexivity.
Qed.

Lemma collect_forall {A B : Type} (P : B -> Prop) (f : A -> result (list B))
      (l : list A) :
  forall bs,
    collect f l = Ok bs ->
    (forall a r, In a l -> f a = Ok r -> Forall P r) ->
    Forall P bs.
Proof.
  induction l as [|a l IH]; intros bs H HP; simpl in H.
  - injection H as <-. constructor.
  - destruct (f a) as [r|e] eqn:E; [|discriminate]. cbn [bind] in H.
    destruct (collect f l) as [rest|e]; [|discriminate]. cbn [bind] in H.
    injection H as <-. apply Forall_app. split.
    + apply (HP a r); [left; reflexivity | assumption].
    + apply IH; [reflexivity |]. intros a' r' Hin. apply HP. right. assumption.
Qed.

Lemma Forall_removelast {A : Type} (P : A -> Prop) (l : list A) :
  Forall P l -> Forall P (removelast l).
Proof.
  induction 1 as [|a l Ha Hl IH]; [constructor |].
  cbn [removelast]. destruct l; [constructor |]. constructor; assumption.
Qed.

Lemma getitem_In {A : Type} (l : list A) (i : nat) (a : A) :
  getitem l i = Ok a -> In a l.
Proof.
  unfold getitem. destruct (nth_error l i) eqn:E; [|discriminate].
  injection 1 as <-. eapply nth_error_In. eassumption.
Qed.

Lemma getlast_In {A : Type} (l : list A) (a : A) :
  getlast l = Ok a -> In a l.
Proof.
  unfold getlast. destruct (rev l) as [|b r] eqn:E; [discriminate |].
  injection 1 as <-. apply in_rev. rewrite E. left. reflexivity.
Qed.

Lemma concatenate_inv (l : list ndarray) (out : ndarray) :
  concatenate l = Ok out ->
  dim1 out = total_time l /\
  (forall i t c, item out i t c = concat_item l i t c) /\
  Forall (fun a => dim0 a = dim0 out /\ dim2 a = dim2 out) l.
Proof.
  destruct l as [|a r]; [discriminate |]. unfold concatenate.
  destruct (forallb _ r) eqn:E; [|discriminate].
  injection 1 as <-. cbn [dim0 dim1 dim2 item].
  split; [reflexivity | split; [reflexivity |]].
  constructor; [auto |].
  apply Forall_forall. intros b Hb. rewrite forallb_forall in E.
  specialize (E b Hb). apply andb_true_iff in E. destruct E as [E0 E2].
  apply Nat.eqb_eq in E0, E2. auto.
Qed.

End Comprehensions.

Section UniformControl.

Variable cb : nat.

Lemma uniform_concatenate (l : list ndarray) (out : ndarray) :
  concatenate l = Ok out ->
  Forall (uniform_control cb) l ->
  uniform_control cb out.
Proof.
  intros H Hall.
  destruct (concatenate_inv l out H) as (H1 & Hitem & Hd).
  intros b t c Hb Ht Hc Hc2. rewrite !Hitem. rewrite H1 in Ht.
  destruct (concat_item_row l t Ht) as (a & t' & Hin & Ht' & Hci).
  rewrite !Hci. rewrite Forall_forall in Hall, Hd.
  destruct (Hd a Hin) as [E0 E2].
  apply (Hall a Hin); congruence.
Qed.

Lemma uniform_same_array (a b : ndarray) :
  same_array a b -> uniform_control cb b -> uniform_control cb a.
Proof.
  intros (E0 & E1 & E2 & E) U i t c Hi Ht Hc Hc2.
  rewrite !E by lia. apply U; congruence.
Qed.

Lemma uniform_left_shift (a : ndarray) (s : nat) :
  uniform_control cb a -> uniform_control cb (left_shift a s).
Proof.
  intros U i t c Hi Ht Hc Hc2. cbn [left_shift dim0 dim1 dim2 item] in *.
  apply U; try assumption. apply Nat.mod_upper_bound. lia.
Qed.

Lemma rotate_inv (seq : ndarray) (r : number) (L : Z) (out : ndarray) :
  rotate seq r L = Ok out -> exists s, same_array out (left_shift seq s).
Proof.
  unfold rotate.
  destruct (to_int _) as [k|e]; [|discriminate]. cbn [bind]. intros H.
  pose proof (concatenate_slices_any seq k) as C. rewrite H in C.
  eexists. exact C.
Qed.

Lemma uniform_rotate (seq : ndarray) (r : number) (L : Z) (out : ndarray) :
  rotate seq r L = Ok out -> uniform_control cb seq -> uniform_control cb out.
Proof.
  intros H U. apply rotate_inv in H. destruct H as [s H].
  eapply uniform_same_array; [exact H |]. apply uniform_left_shift. assumption.
Qed.

Lemma uniform_time_from (k : Z) (a : ndarray) :
  uniform_control cb a -> uniform_control cb (time_from k a).
Proof.
  intros U i t c Hi Ht Hc Hc2. cbn [time_from dim0 dim1 dim2 item] in *.
  apply U; try assumption. lia.
Qed.

Lemma uniform_interleave (self : InterruptionSwapRecall)
      (inter_xy : ndarray) (a b bs : list ndarray) :
  uniform_control cb inter_xy ->
  Forall (uniform_control cb) a -> Forall (uniform_control cb) b ->
  interleave self inter_xy (a, b) = Ok bs ->
  Forall (uniform_control cb) bs.
Proof.
  intros Hxy Ha Hb H. unfold interleave in H.
  destruct (getitem b 0) as [b0|e] eqn:E0; [|discriminate]. cbn [bind] in H.
  destruct (rotate b0 _ _) as [r|e] eqn:Er; [|discriminate]. cbn [bind] in H.
  destruct (getitem b 1) as [b1|e] eqn:E1; [|discriminate]. cbn [bind] in H.
  injection H as <-. rewrite Forall_forall in Hb.
  apply Forall_app. split; [apply Forall_removelast; assumption |].
  repeat constructor; try assumption.
  - eapply uniform_rotate; [exact Er |]. apply Hb. eapply getitem_In. exact E0.
  - apply Hb. eapply getitem_In. exact E1.
Qed.

(** Over an encoder that broadcasts the control patterns, the control
    channel of the assembled inputs does not depend on the batch index. *)
Lemma assemble_with_uniform (utils : encoder) (self : InterruptionSwapRecall)
      (x y : list ndarray) (inputs target : ndarray) :
  broadcasts_control cb utils ->
  assemble_with utils self x y = Ok (inputs, target) ->
  uniform_control cb inputs.
Proof.
  intros [Hadd Haug] H. unfold assemble_with in H.
  destruct (concatenate (y ++ x)) as [tg|e]; [|discriminate]. cbn [bind] in H.
  destruct (comprehension _ x) as [xx|e] eqn:Exx; [|discriminate]. cbn [bind] in H.
  destruct (comprehension _ y) as [yy|e] eqn:Eyy; [|discriminate]. cbn [bind] in H.
  destruct (np_zeros _ _ _) as [z|e]; [|discriminate]. cbn [bind] in H.
  destruct (add_ctrl_of utils z ctrl_inter pos) as [inter_seq|e] eqn:Eseq;
    [|discriminate]. cbn [bind] in H.
  destruct (add_ctrl_of utils z ctrl_xy pos) as [inter_xy|e] eqn:Exy;
    [|discriminate]. cbn [bind] in H.
  destruct (collect _ (combine xx yy)) as [data_1|e] eqn:E1; [|discriminate].
  cbn [bind] in H.
  destruct (collect _ xx) as [data_2|e] eqn:E2; [|discriminate]. cbn [bind] in H.
  destruct (concatenate (data_1 ++ _)) as [inp|e] eqn:Ec; [|discriminate].
  cbn [bind] in H. injection H as <- <-.
  assert (Uxx : Forall (Forall (uniform_control cb)) xx).
  { eapply comprehension_forall; [exact Exx |]. intros a b Hab.
    eapply Haug; [|exact Hab]. reflexivity. }
  assert (Uyy : Forall (Forall (uniform_control cb)) yy).
  { eapply comprehension_forall; [exact Eyy |]. intros a b Hab.
    eapply Haug; [|exact Hab]. reflexivity. }
  assert (Useq : uniform_control cb inter_seq)
    by (eapply Hadd; [|exact Eseq]; reflexivity).
  assert (Uxy : uniform_control cb inter_xy)
    by (eapply Hadd; [|exact Exy]; reflexivity).
  rewrite Forall_forall in Uxx, Uyy.
  eapply uniform_concatenate; [exact Ec |].
  apply Forall_app. split; [|apply Forall_app; split].
  - eapply collect_forall; [exact E1 |]. intros [a b] r Hin Hr.
    eapply uniform_interleave; [exact Uxy | | | exact Hr].
    + apply Uxx. eapply in_combine_l. exact Hin.
    + apply Uyy. eapply in_combine_r. exact Hin.
  - constructor; [assumption | constructor].
  - eapply collect_forall; [exact E2 |]. intros a r Hin Hr. cbv beta in Hr.
    destruct (getlast a) as [d|e] eqn:Ed; [|discriminate]. cbn [bind] in Hr.
    injection Hr as <-. constructor; [|constructor].
    apply uniform_time_from.
    specialize (Uxx a Hin). rewrite Forall_forall in Uxx. apply Uxx.
    apply getlast_In. assumption.
Qed.

End UniformControl.

Section OverAnyEncoder.

Variable utils : encoder.

(** Every episode [generate_batch] returns, over any encoder, is what
    the reconciler returns on the assembled inputs and target. *)
Lemma generate_batch_with_inv (self : InterruptionSwapRecall) (s s' : tape)
      (ep : episode) :
  generate_batch_with utils self s = Ok (ep, s') ->
  exists x y inputs target,
    sample self s = Ok (x, y, s') /\
    assemble_with utils self x y = Ok (inputs, target) /\
    reconcile self inputs target = Ok ep.
Proof.
  unfold generate_batch_with, bindM, lift. intros H.
  destruct (sample self s) as [[[x y] s1]|e] eqn:Hs; [|discriminate].
  cbn [fst snd] in H.
  destruct (assemble_with utils self x y) as [[inputs target]|e] eqn:Ha;
    [|discriminate].
  cbn [bind fst snd] in H.
  destruct (reconcile self inputs target) as [ep'|e] eqn:Hr; [|discriminate].
  injection H as <- <-. exists x, y, inputs, target. auto.
Qed.

Lemma run_with_inv (p : params) (s s' : tape) (ep : episode) :
  run_with utils p s = Ok (ep, s') ->
  exists self, init p = Ok self /\ generate_batch_with utils self s = Ok (ep, s').
Proof.
  unfold run_with. destruct (init p) as [self|e]; [|discriminate].
  intros H. exists self. auto.
Qed.

Lemma assemble_with_target (self : InterruptionSwapRecall)
      (x y : list ndarray) (inputs target : ndarray) :
  assemble_with utils self x y = Ok (inputs, target) ->
  concatenate (y ++ x) = Ok target.
Proof.
  unfold assemble_with. intros H.
  destruct (concatenate (y ++ x)) as [tg|e]; [|discriminate]. cbn [bind] in H.
  repeat match type of H with
         | bind ?r _ = _ => destruct r; [cbn [bind] in H | discriminate]
         end.
  injection H as _ <-. reflexivity.
Qed.

End OverAnyEncoder.

(** Over the encoder of the spec, [generate_batch_with] is
    [generate_batch]. *)
Lemma generate_batch_with_spec_encoder (self : InterruptionSwapRecall) (s : tape) :
  generate_batch_with spec_encoder self s = generate_batch self s.
Proof.
  unfold generate_batch_with, generate_batch, bindM.
  destruct (sample self s) as [[[x y] s1]|e]; [|reflexivity].
  cbn [fst snd]. f_equal. unfold assemble_with, assemble.
  cbn [spec_encoder augment_of add_ctrl_of].
  destruct (concatenate (y ++ x)) as [tg|e]; [|reflexivity]. cbn [bind].
  rewrite !comprehension_ok. cbn [bind].
  destruct (np_zeros _ _ _) as [z|e]; reflexivity.
Qed.

(** The encoder of the spec and the encoder of the examples broadcast
    the control patterns over the batch. *)
Lemma add_ctrl_uniform (cb : nat) (seq : ndarray) (ctrl : list Z) :
  cb <= List.length ctrl -> uniform_control cb (add_ctrl seq ctrl pos).
Proof.
  intros Hlen b t c _ _ Hc _. unfold add_ctrl.
  cbn [item pos hd]. rewrite Nat.min_0_l.
  destruct (Nat.ltb_spec c 0); [lia |].
  destruct (Nat.ltb_spec c (0 + List.length ctrl)); [reflexivity | lia].
Qed.

Lemma spec_encoder_broadcasts : broadcasts_control 3 spec_encoder.
Proof.
  split.
  - intros seq ctrl out Hlen H. injection H as <-.
    apply add_ctrl_uniform. lia.
  - intros seq ctrl_start flag parts Hlen H. injection H as <-.
    unfold augment, markers.
    apply Forall_app. split.
    + destruct flag; [|constructor].
      constructor; [|constructor]. apply add_ctrl_uniform. lia.
    + constructor; [|constructor; [|constructor]];
        apply add_ctrl_uniform; cbn; lia.
Qed.

Lemma docstring_encoder_broadcasts : broadcasts_control 3 docstring_encoder.
Proof.
  split.
  - intros seq ctrl out Hlen H. injection H as <-.
    apply add_ctrl_uniform. lia.
  - intros seq ctrl_start flag parts Hlen H.
    cbn [docstring_encoder augment_of] in H. unfold marked_dummies, markers in H.
    destruct (if flag then _ else _) as [w|e] eqn:Ew; [|discriminate].
    cbn [bind] in H.
    destruct (concatenate [add_ctrl _ ctrl_dummy _; _]) as [d|e] eqn:Ed;
      [|discriminate].
    cbn [bind] in H. injection H as <-.
    constructor; [|constructor; [|constructor]].
    + destruct flag.
      * eapply uniform_concatenate; [exact Ew |].
        repeat constructor; apply add_ctrl_uniform; cbn; lia.
      * injection Ew as <-. apply add_ctrl_uniform. cbn. lia.
    + eapply uniform_concatenate; [exact Ed |].
      repeat constructor; apply add_ctrl_uniform; cbn; lia.
Qed.

(** C3.  Over every channel encoder that broadcasts the control patterns
    over the batch, as the spec describes [add_ctrl] and [augment], and
    for every configuration and state of the random source: the mask of
    every episode [generate_batch] returns has the shape
    [batch, total_time] of the inputs and is identical across the batch
    dimension, [mask[b, t] == mask[0, t]]. *)
Theorem mask_identical_across_batch
        (utils : encoder) (p : params) (s s' : tape)
        (inputs targets : ndarray) (mask : bool2) :
  broadcasts_control (Z.to_nat (p_control_bits p)) utils ->
  run_with utils p s = Ok (inputs, targets, mask, s') ->
  rows mask = dim0 inputs /\ cols mask = dim1 inputs /\
  forall b t, b < rows mask -> t < cols mask -> entry mask b t = entry mask 0 t.
Proof.
  intros Hutils H.
  apply run_with_inv in H. destruct H as (self & Hinit & H).
  apply generate_batch_with_inv in H.
  destruct H as (x & y & raw & target & _ & Ha & Hr).
  assert (Hcb : control_bits self = p_control_bits p /\ (3 <= control_bits self)%Z).
  { unfold init in Hinit.
    destruct (Z.leb_spec 3 (p_control_bits p)); [|discriminate].
    destruct (1 <=? p_data_bits p)%Z; [|discriminate].
    injection Hinit as <-. cbn. auto. }
  destruct Hcb as [Ecb Hcb].
  apply reconcile_inv in Hr. destruct Hr as (Hm & Hrow & -> & _).
  destruct (create_mask_spec self raw mask) as (Hrows & Hcols & Hiff);
    [lia | assumption |].
  pose proof (create_mask_fits self raw mask) as Hfit.
  pose proof (assemble_with_uniform _ utils self x y raw target Hutils Ha) as U.
  cbn [setitem_time_bits dim0 dim1].
  split; [exact Hrows | split; [exact Hcols |]].
  intros b t Hb Ht. apply eq_true_iff_eq. rewrite !Hiff.
  rewrite Hrows in Hb. rewrite Hcols in Ht.
  assert (Hw : (control_bits self <= Z.of_nat (dim2 raw))%Z)
    by (apply Hfit; [lia | assumption]).
  rewrite <- Ecb in U.
  split; intros Hone c Hc.
  - rewrite <- (U b t c) by (assumption || lia). apply Hone. assumption.
  - rewrite (U b t c) by (assumption || lia). apply Hone. assumption.
Qed.

Lemma mask_identical_across_batch_witness :
  (rows (snd (fst example_run)) = dim0 (fst (fst (fst example_run))) /\
   cols (snd (fst example_run)) = dim1 (fst (fst (fst example_run))) /\
   forall b t, b < rows (snd (fst example_run)) ->
               t < cols (snd (fst example_run)) ->
               entry (snd (fst example_run)) b t
               = entry (snd (fst example_run)) 0 t) /\
  rows (snd (fst example_run)) = 2 /\
  selected (snd (fst example_run)) 1 = [8; 9; 10; 12; 13].
Proof.
  split; [|split; reflexivity].
  apply (mask_identical_across_batch docstring_encoder example_params
           counting_tape (snd example_run)
           (fst (fst (fst example_run))) (snd (fst (fst example_run)))
           (snd (fst example_run))).
  - exact docstring_encoder_broadcasts.
  - reflexivity.
Defined.

(** C5, counterexample.  The small configuration (one pair, sub-sequences
    of one time-step) on the counting tape: the X sub-sequence has one
    time-step; whatever the channel encoder, the mask of a returned
    episode has two true entries in [mask[0]], not one; and over the
    encoder of the examples an episode is returned, of 8 time-steps
    rather than 2*1 + 2*1 + 1 + 1 = 6, whose true entries, at the
    time-steps 5 and 7, are not contiguous. *)
Lemma mask_count_differs_from_x_length :
  returns (sample small_problem counting_tape)
          (fun r => total_time (fst (fst r)) = 1 /\ List.length (fst (fst r)) = 1) /\
  (forall utils inputs targets mask s',
      run_with utils small_params counting_tape = Ok (inputs, targets, mask, s') ->
      count_true (entry mask 0) (dim1 inputs) = 2) /\
  returns (run_with docstring_encoder small_params counting_tape)
          (fun r => dim1 (fst (fst (fst r))) = 8 /\
                    selected (snd (fst r)) 0 = [5; 7]).
Proof.
  split; [vm_compute; auto | split; [|vm_compute; auto]].
  intros utils inputs targets mask s' H.
  apply run_with_inv in H. destruct H as (self & Hinit & H).
  injection Hinit as <-.
  apply (generate_batch_with_inv utils) in H.
  destruct H as (x & y & raw & target & Hs & Ha & Hr).
  apply assemble_with_target in Ha.
  assert (Ht : dim1 target = 2).
  { revert Hs Ha. vm_compute. intros Hs. injection Hs as <- <- _.
    intros Ha. injection Ha as <-. reflexivity. }
  apply reconcile_inv in Hr. destruct Hr as (_ & _ & -> & Hset).
  apply setitem_time_inv in Hset. destruct Hset as (_ & B1 & _).
  cbn [zeros_like zeros bits_from setitem_time_bits dim1] in B1 |- *.
  rewrite Ht in B1. unfold broadcasts in B1. apply orb_true_iff in B1.
  destruct B1 as [B1|B1]; apply Nat.eqb_eq in B1; [lia | discriminate].
Qed.

(** C5 as the code has it.  On every valid configuration, with [x] and
    [y] the drawn sub-sequences, and whatever the channel encoder: the
    target has [sum(len y) + sum(len x)] rows, and in every episode
    [generate_batch] returns [mask[0]] has exactly that many true
    entries, one per row of the target, which is more than
    [sum(len x)]. *)
Theorem episode_mask_count
        (utils : encoder) (p : params) (s s' : tape)
        (inputs targets : ndarray) (mask : bool2) :
  valid p ->
  run_with utils p s = Ok (inputs, targets, mask, s') ->
  exists x y,
    sample (problem_of p) s = Ok (x, y, s') /\
    returns (concatenate (y ++ x))
            (fun target => dim1 target = total_time y + total_time x) /\
    count_true (entry mask 0) (dim1 inputs) = total_time y + total_time x /\
    total_time x < count_true (entry mask 0) (dim1 inputs).
Proof.
  intros Hvalid H.
  apply run_with_inv in H. destruct H as (self & Hinit & H).
  rewrite (init_valid p Hvalid) in Hinit. injection Hinit as <-.
  apply generate_batch_with_inv in H.
  destruct H as (x & y & raw & target & Hs & Ha & Hr).
  exists x, y. split; [exact Hs |].
  apply assemble_with_target in Ha. rewrite Ha. cbn [returns].
  destruct (concatenate_inv _ _ Ha) as (Ht & _ & _).
  rewrite total_time_app in Ht.
  destruct Hvalid as (Hb & Hcb & Hdb & Hlen & Hcnt & Hbias).
  pose proof (sample_drawn (problem_of p) Hb Hdb Hlen Hcnt Hbias s) as Hd.
  rewrite Hs in Hd. cbn [returns fst] in Hd.
  destruct Hd as (Hn & Hxy & Hx & Hy).
  assert (Hx' : Forall (nonempty_block (problem_of p)) x).
  { eapply Forall_impl; [|exact Hx]. intros a. apply drawn_block. apply Hlen. }
  assert (Hy' : Forall (nonempty_block (problem_of p)) y).
  { eapply Forall_impl; [|exact Hy]. intros a. apply drawn_block. apply Hlen. }
  pose proof (block_total_time (problem_of p) x Hx').
  pose proof (block_total_time (problem_of p) y Hy').
  apply reconcile_inv in Hr. destruct Hr as (_ & _ & -> & Hset).
  apply setitem_time_inv in Hset. destruct Hset as (_ & B1 & _).
  cbn [zeros_like zeros bits_from setitem_time_bits dim1] in B1 |- *.
  unfold broadcasts in B1. apply orb_true_iff in B1.
  split; [exact Ht |].
  destruct B1 as [B1|B1]; apply Nat.eqb_eq in B1; lia.
Qed.

Lemma episode_mask_count_witness :
  exists x y,
    sample (problem_of example_params) counting_tape = Ok (x, y, snd example_run) /\
    returns (concatenate (y ++ x))
            (fun target => dim1 target = total_time y + total_time x) /\
    count_true (entry (snd (fst example_run)) 0)
               (dim1 (fst (fst (fst example_run))))
    = total_time y + total_time x /\
    total_time x < count_true (entry (snd (fst example_run)) 0)
                              (dim1 (fst (fst (fst example_run)))).
Proof.
  apply (episode_mask_count docstring_encoder example_params counting_tape
           (snd example_run)
           (fst (fst (fst example_run))) (snd (fst (fst example_run)))
           (snd (fst example_run))).
  - unfold valid, Qle. simpl. lia.
  - reflexivity.
Defined.

(* ================================================================== *)
(** * The forward pass of [DWM] *)
(* ================================================================== *)

Section DWMFacts.

Variables X Y State H : Type.
Variable DWMCell : X -> State -> option Y * State.
Variable init_state : Z -> nat -> State.
Variable snapshot : State -> H.

(** What the loop over the time-steps keeps: the output grows by at most
    one time-step per input step, by exactly one when the cell yields,
    it never becomes an empty tensor, and with the time plot on the
    history grows with it. *)
Lemma forward_loop_steps (visualize : bool) (steps : list X) :
  forall cell_state output history,
    let r := forward_loop DWMCell snapshot visualize steps cell_state
                          output history in
    time_steps (fst r) <= time_steps output + List.length steps /\
    time_steps output <= time_steps (fst r) /\
    (output <> Some [] -> fst r <> Some []) /\
    (visualize = true ->
     List.length (snd r) + time_steps output
     = List.length history + time_steps (fst r)) /\
    (visualize = false -> snd r = history) /\
    ((forall x s, fst (DWMCell x s) <> None) ->
     time_steps (fst r) = time_steps output + List.length steps).
Proof.
  induction steps as [|x rest IH]; intros cell_state output history.
  - cbn. repeat split; try lia; auto.
  - cbn [forward_loop].
    destruct (DWMCell x cell_state) as [[y|] s'] eqn:Hcell.
    + set (output' := match output with
                      | None => Some [y]
                      | Some out => Some (out ++ [y])
                      end).
      set (history' := if visualize then history ++ [snapshot s'] else history).
      specialize (IH s' output' history').
      assert (Hsteps : time_steps output' = S (time_steps output)).
      { unfold output'. destruct output as [out|]; cbn; [|reflexivity].
        rewrite length_app. cbn. lia. }
      assert (Hne : output' <> Some []).
      { unfold output'. destruct output as [out|]; [|discriminate].
        intros E. injection E as E. destruct out; discriminate. }
      cbv zeta in IH |- *.
      destruct IH as (A & B & C & D & E & F).
      cbn [List.length]. repeat split.
      * lia.
      * lia.
      * intros _. apply C. exact Hne.
      * intros Hv. specialize (D Hv). subst visualize. unfold history' in *.
        rewrite length_app in D. cbn [List.length] in D. lia.
      * intros Hv. rewrite (E Hv). subst visualize. reflexivity.
      * intros Hy. rewrite (F Hy). lia.
    + specialize (IH s' output history). cbv zeta in IH |- *.
      destruct IH as (A & B & C & D & E & F).
      cbn [List.length]. repeat split; auto; try lia.
      intros Hy. exfalso. apply (Hy x cell_state). rewrite Hcell. reflexivity.
Qed.

(** The output of the loop: the outputs the cell yields, appended in
    time order to the output so far. *)
Lemma forward_loop_output (visualize : bool) (steps : list X) :
  forall cell_state output history,
    fst (forward_loop DWMCell snapshot visualize steps cell_state output history)
    = match yields DWMCell steps cell_state with
      | [] => output
      | l => Some (match output with
                   | None => l
                   | Some out => out ++ l
                   end)
      end.
Proof.
  induction steps as [|x rest IH]; intros cell_state output history.
  - reflexivity.
  - cbn [forward_loop yields].
    destruct (DWMCell x cell_state) as [[y|] s'].
    + rewrite IH. destruct (yields DWMCell rest s') as [|y' l].
      * destruct output; reflexivity.
      * destruct output as [out|]; cbv zeta iota beta; [|reflexivity].
        rewrite <- app_assoc. reflexivity.
    + apply IH.
Qed.

Lemma yields_length (steps : list X) :
  forall cell_state,
    List.length (yields DWMCell steps cell_state) <= List.length steps.
Proof.
  induction steps as [|x rest IH]; intros cell_state; [apply Nat.le_refl |].
  cbn [yields List.length].
  destruct (DWMCell x cell_state) as [[y|] s'].
  - cbn [List.length]. apply le_n_S. apply IH.
  - apply Nat.le_le_succ_r. apply IH.
Qed.

Lemma yields_never (steps : list X) :
  forall cell_state,
    (forall x s, fst (DWMCell x s) = None) ->
    yields DWMCell steps cell_state = [].
Proof.
  induction steps as [|x rest IH]; intros cell_state Hn; [reflexivity |].
  cbn [yields]. specialize (Hn x cell_state) as Hx.
  destruct (DWMCell x cell_state) as [[y|] s']; [discriminate |].
  apply IH. assumption.
Qed.

Lemma yields_always (steps : list X) :
  forall cell_state,
    (forall x s, fst (DWMCell x s) <> None) ->
    List.length (yields DWMCell steps cell_state) = List.length steps.
Proof.
  induction steps as [|x rest IH]; intros cell_state Hy; [reflexivity |].
  cbn [yields List.length]. specialize (Hy x cell_state) as Hx.
  destruct (DWMCell x cell_state) as [[y|] s']; [|contradiction Hx; reflexivity].
  cbn [List.length]. f_equal. apply IH. assumption.
Qed.

End DWMFacts.

(** In automatic mode ([memory_addresses_size == -1]) the memory
    that [forward] allocates has as many addresses as the larger of the
    sequence length and [num_shift]: never fewer than the shift size, and
    never fewer than the time-steps to store. *)
Lemma memory_size_automatic {H : Type} (self : DWM H) (seq_length : nat) :
  memory_addresses_size self = (-1)%Z ->
  memory_size self seq_length = Z.max (Z.of_nat seq_length) (num_shift self) /\
  (num_shift self <= memory_size self seq_length)%Z /\
  (Z.of_nat seq_length <= memory_size self seq_length)%Z.
Proof.
  intros Hauto. unfold memory_size. rewrite Hauto. cbn [Z.eqb Pos.eqb].
  destruct (Z.ltb_spec (Z.of_nat seq_length) (num_shift self)); lia.
Qed.

(** X14.  What [forward] returns, for every cell, on inputs of three
    axes and on inputs of four axes, of which it keeps channel 0.  The
    cell starts from [init_state] on the memory size of the model for the
    sequence and on the batch size; the output is the tensor of the
    outputs the cell yields, in time order, one time-step per yield, and
    [None], never an empty tensor, when the cell yields nothing.  It has
    at most the time-steps of the inputs, and exactly as many when the
    cell always yields.  On inputs of four axes without channel the call
    raises [IndexError]. *)
Theorem forward_output_steps
        {X Y State H : Type} (DWMCell : X -> State -> option Y * State)
        (init_state : Z -> nat -> State) (snapshot : State -> H)
        (visualize : bool) (self : DWM H)
        (batch_size : nat) (steps : list X) (channels : list (list X)) :
  let cell_state := init_state (memory_size self (List.length steps)) batch_size in
  let outs := yields DWMCell steps cell_state in
  let output := match outs with [] => None | _ :: _ => Some outs end in
  snd (forward DWMCell init_state snapshot visualize self
               (Rank3 batch_size steps)) = Ok output /\
  snd (forward DWMCell init_state snapshot visualize self
               (Rank4 batch_size (steps :: channels))) = Ok output /\
  (exists msg,
      snd (forward DWMCell init_state snapshot visualize self
                   (Rank4 batch_size [])) = Raise (IndexError msg)) /\
  time_steps output = List.length outs /\
  List.length outs <= List.length steps /\
  ((forall x s, fst (DWMCell x s) = None) -> output = None) /\
  ((forall x s, fst (DWMCell x s) <> None) ->
   time_steps output = List.length steps).
Proof.
  cbv zeta.
  set (cell_state := init_state (memory_size self (List.length steps)) batch_size).
  assert (Hfwd : forall inputs,
             inputs = Rank3 batch_size steps \/
             inputs = Rank4 batch_size (steps :: channels) ->
             snd (forward DWMCell init_state snapshot visualize self inputs)
             = Ok match yields DWMCell steps cell_state with
                  | [] => None
                  | _ :: _ => Some (yields DWMCell steps cell_state)
                  end).
  { intros inputs Hin. unfold forward.
    assert (Hmem : memory_size
                     (if visualize
                      then Model (num_shift self) (memory_addresses_size self)
                                 (Some [])
                      else self) (List.length steps)
                   = memory_size self (List.length steps))
      by (destruct visualize; reflexivity).
    destruct Hin as [-> | ->]; cbn [getitem nth_error bind]; rewrite Hmem;
      fold cell_state;
      pose proof (forward_loop_output X Y State H DWMCell snapshot visualize
                    steps cell_state None []) as Hout;
      destruct (forward_loop _ _ _ _ _ _ _) as [output history];
      cbn [fst snd] in *; rewrite Hout;
      destruct (yields DWMCell steps cell_state); reflexivity. }
  split; [apply Hfwd; left; reflexivity |].
  split; [apply Hfwd; right; reflexivity |].
  split; [unfold forward; cbn [getitem nth_error bind snd]; eauto |].
  pose proof (yields_length X Y State DWMCell steps cell_state) as Hlen.
  pose proof (yields_never X Y State DWMCell steps cell_state) as Hnever.
  pose proof (yields_always X Y State DWMCell steps cell_state) as Halways.
  destruct (yields DWMCell steps cell_state) as [|y outs] eqn:E.
  - split; [reflexivity | split; [exact Hlen | split]].
    + reflexivity.
    + intros Hy. rewrite <- (Halways Hy). reflexivity.
  - split; [reflexivity | split; [exact Hlen | split]].
    + intros Hn. specialize (Hnever Hn). discriminate.
    + intros Hy. cbn [time_steps]. apply Halways. assumption.
Qed.

(** X15.  The history of the time plot.  Without the time plot
    [forward] leaves the model as it is.  With it, the shift size and
    the memory size of the model are kept and the history is replaced by
    a list with exactly one entry per time-step of the returned output
    (none when the call fails or returns [None]). *)
Theorem forward_history_matches_output
        {X Y State H : Type} (DWMCell : X -> State -> option Y * State)
        (init_state : Z -> nat -> State) (snapshot : State -> H)
        (self : DWM H) (inputs : dwm_inputs X) :
  fst (forward DWMCell init_state snapshot false self inputs) = self /\
  let after := forward DWMCell init_state snapshot true self inputs in
  num_shift (fst after) = num_shift self /\
  memory_addresses_size (fst after) = memory_addresses_size self /\
  exists history,
    cell_state_history (fst after) = Some history /\
    List.length history = match snd after with
                          | Ok output => time_steps output
                          | Raise _ => 0
                          end.
Proof.
  split.
  - unfold forward.
    destruct inputs as [batch_size steps|batch_size [|steps channels]];
      cbn [getitem nth_error bind]; try reflexivity;
      destruct (forward_loop _ _ _ _ _ _ _); reflexivity.
  - cbv zeta. unfold forward.
    assert (Hloop : forall steps cell_state,
               let r := forward_loop DWMCell snapshot true steps cell_state
                                     None [] in
               List.length (snd r) = time_steps (fst r)).
    { intros steps cell_state. cbv zeta.
      destruct (forward_loop_steps X Y State H DWMCell snapshot true steps
                  cell_state None []) as (_ & _ & _ & D & _).
      specialize (D eq_refl). cbn [time_steps List.length] in D. lia. }
    destruct inputs as [batch_size steps|batch_size [|steps channels]];
      cbn [getitem nth_error bind].
    + match goal with
      | |- context [forward_loop _ _ _ ?st ?cs _ _] =>
          specialize (Hloop st cs)
      end.
      cbv zeta in Hloop. destruct (forward_loop _ _ _ _ _ _ _) as [output history].
      cbn [fst snd num_shift memory_addresses_size cell_state_history] in *.
      repeat split. eauto.
    + cbn. repeat split. exists []. split; reflexivity.
    + match goal with
      | |- context [forward_loop _ _ _ ?st ?cs _ _] =>
          specialize (Hloop st cs)
      end.
      cbv zeta in Hloop. destruct (forward_loop _ _ _ _ _ _ _) as [output history].
      cbn [fst snd num_shift memory_addresses_size cell_state_history] in *.
      repeat split. eauto.
Qed.

(** The forward pass on a concrete cell that yields at the even sums of
    its inputs: four time-steps in, two time-steps out, two states in the
    history. *)
Example forward_even_sums :
  forward even_sums (fun _ _ => 0%Z) (fun s => s) true auto_model
          (Rank3 1 [1; 1; 3; 1]%Z)
  = (Model 3 (-1) (Some [2; 6]%Z), Ok (Some [2; 6]%Z)).
Proof. reflexivity. Qed.
